(** * worktree-cli: slot registry, port arithmetic, compose generation

    A shallow embedding of the slot/port allocation engine ([ports.ts]),
    the compose-definition generator ([compose.js]) and the part of the
    lifecycle orchestration ([operations.js]) that touches the slot
    registry, followed by the properties proved about them.

    Conventions of the embedding:
    - a JS [number] holding a port, a slot or a count is a [Z]; the
      code computes on doubles, which agree with [Z] as long as the
      operands and the results are safe integers ([Js.isSafeInteger]);
    - a JS string is a [string]; every character the code inspects
      (braces, dots, slashes, word characters) is ASCII, so bytes above
      127 behave like the non-ASCII code units they encode; only
      [toLowerCase] looks at them, and it is modelled on ASCII strings
      ([Invariants.isAscii]);
    - the slot registry, only ever indexed by key, is a [gmap string Z]
      (own properties of the parsed JSON object); a read [slots[name]]
      also finds what the object inherits, so the registry is modelled
      for the names that are no member of [Object.prototype]
      ([Js.inheritedKey]);
    - a [Record<string, V>] the code iterates with [Object.entries] is a
      list of entries in insertion order ([Rec V]), the order in which
      an object lists its keys unless some are strings of digits
      ([Invariants.integerKey]);
    - the file system and the external tools are an explicit [World]
      threaded through every operation: the world of one project root,
      the one [findProjectRoot()] answers, with the checkouts known by
      name, a name being one path segment ([Invariants.isName]).

    The properties that depend on one of these bounds carry it as a
    hypothesis. *)

From Stdlib Require Import ZArith Lia Ascii String List.
From stdpp Require Import base gmap strings list fin_maps pretty.

Local Open Scope Z_scope.

(** [simpl] may unfold a concatenation whose left operand starts with a
    constructor. *)
Local Arguments String.append !_ _ / : simpl nomatch.
Local Arguments Ascii.eqb : simpl never.

(* ===================================================================== *)
(** * Part I. The embedding                                               *)
(* ===================================================================== *)

(** ** JavaScript values shared by the modules *)

Module Js.

(** Outcome of a call that may [throw new Error(message)]. *)
Inductive Result (A : Type) : Type :=
| Ok (a : A)
| Throw (message : string).
Arguments Ok {A} a.
Arguments Throw {A} message.

(** [String(n)] for an integral number. *)
Definition String_ (n : Z) : string := pretty n.

(** Truthiness of an optional string: [undefined] and [''] are falsy. *)
Definition truthy (o : option string) : bool :=
  match o with
  | Some (String _ _) => true
  | _ => false
  end.

(** [a || b] on an optional string. *)
Definition orString (o : option string) (d : string) : string :=
  match o with
  | Some (String c r) => String c r
  | _ => d
  end.

(** [a || b] on an optional number: [undefined] and [0] are falsy. *)
Definition orNumber (o : option Z) (d : Z) : Z :=
  match o with
  | Some 0 | None => d
  | Some n => n
  end.

(** [Record<string, V>]: the own enumerable entries, in insertion order. *)
Definition Rec (V : Type) : Type := list (string * V).

Section Rec.
Context {V : Type}.

(** [o[k]] *)
Fixpoint get (o : Rec V) (k : string) : option V :=
  match o with
  | [] => None
  | (k', v) :: o' => if String.eqb k' k then Some v else get o' k
  end.

(** [o[k] = v]: an existing key keeps its position, a new one is appended. *)
Fixpoint set (o : Rec V) (k : string) (v : V) : Rec V :=
  match o with
  | [] => [(k, v)]
  | (k', v') :: o' =>
      if String.eqb k' k then (k', v) :: o' else (k', v') :: set o' k v
  end.

(** [Object.keys(o)] *)
Definition keys (o : Rec V) : list string := map fst o.
End Rec.

(** The members a plain object inherits from [Object.prototype]: for
    these keys [o[k]] is never [undefined], whether or not [o] has an
    entry [k] of its own. *)
Definition inheritedKeys : list string :=
  [ "constructor"; "hasOwnProperty"; "isPrototypeOf";
    "propertyIsEnumerable"; "toLocaleString"; "toString"; "valueOf";
    "__proto__"; "__defineGetter__"; "__defineSetter__";
    "__lookupGetter__"; "__lookupSetter__" ].

Definition inheritedKey (k : string) : bool :=
  existsb (String.eqb k) inheritedKeys.

(** [Number.isSafeInteger(n)] for an integral [n]: sums and products of
    doubles are exact when operands and result pass it. *)
Definition MAX_SAFE_INTEGER : Z := 2 ^ 53 - 1.

Definition isSafeInteger (n : Z) : bool :=
  (- MAX_SAFE_INTEGER <=? n) && (n <=? MAX_SAFE_INTEGER).

End Js.

(** ** [ports.ts]: slot registry and port arithmetic *)

(** State of the machine outside the process. *)
Record World : Type := mkWorld {
  (** contents of [.slots.json]; [None] when the file is missing or does
      not parse *)
  slotsFile : option (gmap string Z);
  (** names [n] (one path segment each) such that
      [join(worktreesDir, n)] exists *)
  worktreeDirs : gset string;
  (** names whose checkout has uncommitted changes
      ([git status --porcelain] prints something) *)
  dirtyTrees : gset string;
  (** names whose directory holds a generated compose file *)
  composeFiles : gset string
}.

Definition withSlotsFile (f : option (gmap string Z)) (w : World) : World :=
  mkWorld f (worktreeDirs w) (dirtyTrees w) (composeFiles w).

Module Ports.
Import Js.

Definition loadSlots (w : World) : gmap string Z :=
  match slotsFile w with
  | Some slots => slots
  | None => ∅
  end.

Definition saveSlots (slots : gmap string Z) (w : World) : World :=
  withSlotsFile (Some slots) w.

(** The loop [for (let i = 1; i <= maxWorktrees; i++)], entered at [i]
    with [n] iterations left: the first [i] with [!usedSlots.has(i)]. *)
Fixpoint scanSlots (usedSlots : gset Z) (i : Z) (n : nat) : option Z :=
  match n with
  | O => None
  | S n' =>
      if decide (i ∈ usedSlots) then scanSlots usedSlots (i + 1) n'
      else Some i
  end.

Definition noSlotsMessage (maxWorktrees : Z) : string :=
  "No available slots (max: " +:+ String_ maxWorktrees
    +:+ "). Remove a worktree first.".

(** [assignSlot], returning as well the local object [slots] as it is
    when the function exits. The test [slots[worktreeName] !== undefined]
    is a lookup among the entries of the registry; the two agree for
    every name that is no inherited key ([Js.inheritedKey]). *)
Definition assignSlotRun (worktreeName : string) (maxWorktrees : Z)
    (w : World) : Result Z * gmap string Z * World :=
  let slots := loadSlots w in
  match slots !! worktreeName with
  | Some s => (Ok s, slots, w)
  | None =>
      let usedSlots : gset Z := map_img slots in
      match scanSlots usedSlots 1 (Z.to_nat maxWorktrees) with
      | Some i =>
          let slots' := <[worktreeName := i]> slots in
          (Ok i, slots', saveSlots slots' w)
      | None => (Throw (noSlotsMessage maxWorktrees), slots, w)
      end
  end.

Definition assignSlot (worktreeName : string) (maxWorktrees : Z)
    (w : World) : Result Z * World :=
  let '(r, _, w') := assignSlotRun worktreeName maxWorktrees w in (r, w').

Definition releaseSlot (worktreeName : string) (w : World) : World :=
  saveSlots (delete worktreeName (loadSlots w)) w.

(** [slots[worktreeName] ?? null], for a name that is no inherited
    key. *)
Definition getSlot (worktreeName : string) (w : World) : option Z :=
  loadSlots w !! worktreeName.

(** [basePort + slot * offset] on numbers; exact where
    [Vocabulary.exactPort] holds. *)
Definition calculateHostPort (basePort slot offset : Z) : Z :=
  basePort + slot * offset.

End Ports.

(** ** [config.ts]: the declarative configuration *)

Module Config.
Import Js.

Record Healthcheck : Type := mkHealthcheck {
  test : option string;
  path : option string;
  interval : option string;
  retries : option Z;
  start_period : option string
}.

Record ServiceConfig : Type := mkService {
  name : string;
  image : option string;
  build_path : option string;          (* [path] *)
  dockerfile : option string;
  command : option string;
  ports : Rec Z;                       (* not optional in [ServiceConfig] *)
  env : option (Rec string);
  healthcheck : option Healthcheck;
  depends_on : option (Rec string);
  volumes : option (Rec string);
  named_volumes : option (Rec string)
}.

Record MonorepoConfig : Type := mkConfig {
  project_name : string;               (* [project.name] *)
  worktree_dir : string;               (* [project.worktree_dir] *)
  offset : Z;                          (* [ports.offset] *)
  max_worktrees : Z;                   (* [ports.max_worktrees] *)
  services : list ServiceConfig;
  post_create : option (list string)   (* [hooks.post_create] *)
}.

Definition DEFAULT_CONFIG : MonorepoConfig :=
  mkConfig "project" ".worktrees" 1000 5 [] None.

Record ServicePort : Type := mkServicePort {
  sp_service : string;
  sp_port : string;
  sp_base : Z;
  sp_host : Z
}.

Definition getServicePorts (config : MonorepoConfig) (slot : Z)
    : list ServicePort :=
  flat_map
    (fun service =>
       map (fun '(portName, basePort) =>
              mkServicePort (name service) portName basePort
                (basePort + slot * offset config))
           (ports service))
    (services config).

(** [parts = worktreePath.split(/[/\\]/); parts[parts.length - 1]],
    computed with the segment read so far in [cur]. *)
Fixpoint lastSegment (cur : string) (s : string) : string :=
  match s with
  | EmptyString => String.rev cur
  | String c r =>
      if (Ascii.eqb c "/" || Ascii.eqb c "\")%bool then lastSegment "" r
      else lastSegment (String c cur) r
  end.

Definition getWorktreeName (worktreePath : string) : string :=
  lastSegment "" worktreePath.

End Config.

(** ** [compose.js]: the definition generator *)

Module Compose.
Import Js.

Record Build : Type := mkBuild {
  context : string;
  dockerfile : string
}.

Record HealthSpec : Type := mkHealthSpec {
  test : list string;
  interval : string;
  retries : Z;
  start_period : string
}.

Record Dependency : Type := mkDependency { condition : string }.

Record Service : Type := mkService {
  container_name : string;
  image : option string;
  build : option Build;
  command : option string;
  ports : option (list string);
  environment : option (Rec string);
  volumes : option (list string);
  healthcheck : option HealthSpec;
  depends_on : option (Rec Dependency);
  networks : list string
}.

Record Network : Type := mkNetwork { driver : string }.

Record ComposeFile : Type := mkCompose {
  version : string;
  services : Rec Service;
  top_networks : Rec Network;          (* [networks] *)
  top_volumes : option (Rec unit)      (* [volumes], each value [{}] *)
}.

(** *** The regular expression [/\{(\w+)\.(\w+)\.host\}/g] *)

(** [\w] without the [u] flag: [[A-Za-z0-9_]]. *)
Definition isWordChar (c : ascii) : bool :=
  let n := nat_of_ascii c in
  ((48 <=? n) && (n <=? 57) || (65 <=? n) && (n <=? 90)
   || (97 <=? n) && (n <=? 122) || (n =? 95))%nat%bool.

(** The longest run of word characters at the head of [s], and what
    follows it. *)
Fixpoint spanWord (s : string) : string * string :=
  match s with
  | EmptyString => (EmptyString, EmptyString)
  | String c r =>
      if isWordChar c then
        let '(w, t) := spanWord r in (String c w, t)
      else (EmptyString, s)
  end.

(** [s] without its prefix [p], when it has it. *)
Fixpoint stripPrefix (p s : string) : option string :=
  match p, s with
  | EmptyString, _ => Some s
  | String a p', String b s' =>
      if Ascii.eqb a b then stripPrefix p' s' else None
  | String _ _, EmptyString => None
  end.

(** One attempt of the regular expression at the head of [s]: the two
    captured groups and the text after the match. A greedy [\w+] stops
    at the first non-word character; the pattern then wants a dot (or
    [.host}]), itself no word character, so no shorter run could match
    where the longest fails and backtracking never changes the result. *)
Definition matchRefAt (s : string) : option (string * string * string) :=
  match s with
  | String c r =>
      if Ascii.eqb c "{" then
        match spanWord r with
        | (String c1 w1, String d r2) =>
            if Ascii.eqb d "." then
              match spanWord r2 with
              | (String c2 w2, r3) =>
                  match stripPrefix ".host}" r3 with
                  | Some rest => Some (String c1 w1, String c2 w2, rest)
                  | None => None
                  end
              | _ => None
              end
            else None
        | _ => None
        end
      else None
  | EmptyString => None
  end.

(** The text [{svcName.portName.host}]. *)
Definition refText (svcName portName : string) : string :=
  "{" +:+ svcName +:+ "." +:+ portName +:+ ".host}".

(** [s.replace(re, f)] for the global expression above: matches are
    searched left to right, a match is replaced by [f match g1 g2] and
    the search resumes after it; a character at which no match starts
    is copied. [fuel] bounds the number of steps. *)
Fixpoint replaceRefsFrom (fuel : nat)
    (f : string -> string -> string -> string) (s : string) : string :=
  match fuel with
  | O => s
  | S fuel' =>
      match s with
      | EmptyString => EmptyString
      | String c r =>
          match matchRefAt s with
          | Some (g1, g2, rest) =>
              f (refText g1 g2) g1 g2 +:+ replaceRefsFrom fuel' f rest
          | None => String c (replaceRefsFrom fuel' f r)
          end
      end
  end.

Definition replaceRefs (f : string -> string -> string -> string)
    (s : string) : string :=
  replaceRefsFrom (String.length s) f s.

(** *** [generateCompose] *)

Section Generate.
Variable worktreeName : string.
Variable slot : Z.
Variable config : Config.MonorepoConfig.

Definition isMain : bool := slot =? 0.

Definition prefix : string :=
  if isMain then Config.project_name config else "wt-" +:+ worktreeName.

Definition networkName : string := prefix.

(** The callback given to [replace]. *)
Definition resolveRef (matched svcName portName : string) : string :=
  match find (fun s => String.eqb (Config.name s) svcName)
             (Config.services config) with
  | Some targetSvc =>
      match get (Config.ports targetSvc) portName with
      | Some basePort =>
          String_ (Ports.calculateHostPort basePort slot
                     (Config.offset config))
      | None => matched
      end
  | None => matched
  end.

Definition resolveValue (value : string) : string :=
  replaceRefs resolveRef value.

Definition genPorts (service : Config.ServiceConfig)
    : option (list string) :=
  match Config.ports service with
  | [] => None
  | entries =>
      Some (map (fun '(_, basePort) =>
                   String_ (Ports.calculateHostPort basePort slot
                              (Config.offset config))
                     +:+ ":" +:+ String_ basePort)
                entries)
  end.

Definition genEnvironment (service : Config.ServiceConfig)
    : option (Rec string) :=
  match Config.env service with
  | Some entries =>
      Some (fold_left (fun env '(key, value) =>
                         set env key (resolveValue value))
                      entries [])
  | None => None
  end.

Definition qualifiedName (volumeName : string) : string :=
  if isMain then volumeName
  else "wt-" +:+ worktreeName +:+ "-" +:+ volumeName.

(** The two volume loops of one service: the service's own list and
    the shared top-level object [volumes]. *)
Definition genVolumes (service : Config.ServiceConfig)
    (volumes : Rec unit) : list string * Rec unit :=
  let binds :=
    match Config.volumes service with
    | Some entries =>
        map (fun '(hostPath, containerPath) =>
               "./" +:+ hostPath +:+ ":" +:+ containerPath) entries
    | None => []
    end in
  match Config.named_volumes service with
  | Some entries =>
      fold_left (fun acc entry =>
                   let '(svcVolumes, vols) := acc in
                   let '(volumeName, mountPath) := entry in
                   (svcVolumes ++ [qualifiedName volumeName +:+ ":"
                                     +:+ mountPath],
                    set vols (qualifiedName volumeName) tt))
                entries (binds, volumes)
  | None => (binds, volumes)
  end.

Definition genHealthcheck (service : Config.ServiceConfig)
    : option HealthSpec :=
  match Config.healthcheck service with
  | Some hc =>
      let spec (t : list string) :=
        mkHealthSpec t
          (orString (Config.interval hc) "10s")
          (orNumber (Config.retries hc) 5)
          (orString (Config.start_period hc) "30s") in
      match truthy (Config.path hc), get (Config.ports service) "main" with
      | true, Some mainPort =>
          Some (spec ["CMD"; "curl"; "-f";
                      "http://localhost:" +:+ String_ mainPort
                        +:+ orString (Config.path hc) ""])
      | _, _ =>
          if truthy (Config.test hc)
          then Some (spec ["CMD-SHELL"; orString (Config.test hc) ""])
          else None
      end
  | None => None
  end.

Definition genDependsOn (service : Config.ServiceConfig)
    : option (Rec Dependency) :=
  match Config.depends_on service with
  | Some entries =>
      Some (fold_left (fun deps '(depName, cond) =>
                         set deps depName (mkDependency cond))
                      entries [])
  | None => None
  end.

(** One iteration of the loop over [config.services]. *)
Definition genService (service : Config.ServiceConfig)
    (volumes : Rec unit) : Service * Rec unit :=
  let '(svcVolumes, volumes') := genVolumes service volumes in
  (mkService
     (prefix +:+ "-" +:+ Config.name service)
     (if truthy (Config.image service) then Config.image service
      else None)
     (if truthy (Config.image service) then None
      else if truthy (Config.build_path service) then
        Some (mkBuild
                ("./" +:+ orString (Config.build_path service) "")
                (orString (Config.dockerfile service) "Dockerfile"))
      else None)
     (if truthy (Config.command service) then Config.command service
      else None)
     (genPorts service)
     (genEnvironment service)
     (match svcVolumes with [] => None | _ => Some svcVolumes end)
     (genHealthcheck service)
     (genDependsOn service)
     [networkName],
   volumes').

Definition genServices : Rec Service * Rec unit :=
  fold_left (fun acc service =>
               let '(svcs, vols) := acc in
               let '(svc, vols') := genService service vols in
               (set svcs (Config.name service) svc, vols'))
            (Config.services config) ([], []).

Definition generateCompose : ComposeFile :=
  let '(svcs, vols) := genServices in
  mkCompose "3.8" svcs
    [(networkName, mkNetwork "bridge")]
    (match vols with [] => None | _ => Some vols end).

End Generate.

End Compose.

(** ** [git.js]: the checkout collaborator, by its effect on the [World] *)

Module Git.

(** [removeWorktree(worktreePath, cwd)]: every [git] call is silent (a
    failure is swallowed) and a directory still there is deleted by
    [rmSync]; whatever lived in the directory goes with it. *)
Definition removeWorktree (name : string) (w : World) : World :=
  mkWorld (slotsFile w)
          (worktreeDirs w ∖ {[name]})
          (dirtyTrees w ∖ {[name]})
          (composeFiles w ∖ {[name]}).

(** [createWorktree(worktreePath, branch, baseBranch, cwd)] when
    [git worktree add] succeeds: a clean checkout appears. *)
Definition createWorktree (name : string) (w : World) : World :=
  mkWorld (slotsFile w)
          ({[name]} ∪ worktreeDirs w)
          (dirtyTrees w ∖ {[name]})
          (composeFiles w).

Definition hasUncommittedChanges (name : string) (w : World) : bool :=
  bool_decide (name ∈ dirtyTrees w).

End Git.

(** ** [operations.js]: lifecycle orchestration

    Console output, the [.env.local] copy, [safe.directory], the
    post-create hooks and the calls to the container engine do not touch
    the registry or the checkouts and are left out; branch deletion acts
    on branches, which the [World] does not record. *)

Module Operations.
Import Js.

Record WorktreeConfig : Type := mkWorktreeConfig {
  name : string;
  branch : string;
  baseBranch : string;
  slot : Z;
  monorepoConfig : Config.MonorepoConfig
}.

(** What the outside does when asked: whether [git worktree add] and
    the write of the compose file go through. *)
Record Tools : Type := mkTools {
  gitCreateSucceeds : bool;
  composeWriteSucceeds : bool
}.

Definition existsWorktree (name : string) (w : World) : bool :=
  bool_decide (name ∈ worktreeDirs w).

Definition writeCompose (name : string) (w : World) : World :=
  mkWorld (slotsFile w) (worktreeDirs w) (dirtyTrees w)
          ({[name]} ∪ composeFiles w).

(** [createWorktree] from "Ensure worktrees directory exists" on.
    Whether the compose file written into the new checkout shows in
    [git status] depends on the project's ignore rules; the checkout is
    taken as clean. *)
Definition createCheckout (tools : Tools) (config : WorktreeConfig)
    (w : World) : bool * World :=
  if gitCreateSucceeds tools then
    let w1 := Git.createWorktree (name config) w in
    let w2 := if composeWriteSucceeds tools
              then writeCompose (name config) w1 else w1 in
    (true, w2)
  else
    (false, Ports.releaseSlot (name config) w).

(** [createWorktree(config, { force })] as far as it returns: the
    three exits with [return false] and the one with [return true]. A
    call that ends by an exception of the file system or of a hook has
    no image here. *)
Definition createWorktree (tools : Tools) (config : WorktreeConfig)
    (force : bool) (w : World) : bool * World :=
  match Ports.assignSlot (name config)
          (Config.max_worktrees (monorepoConfig config)) w with
  | (Throw _, w1) => (false, w1)
  | (Ok _, w1) =>
      if existsWorktree (name config) w1 then
        if force then
          createCheckout tools config (Git.removeWorktree (name config) w1)
        else
          (false, Ports.releaseSlot (name config) w1)
      else createCheckout tools config w1
  end.

(** [removeWorktree(name, { force })], in the project root that
    [findProjectRoot()] answers. *)
Definition removeWorktree (name : string) (force : bool) (w : World)
    : bool * World :=
  if negb (existsWorktree name w) then (true, w)
  else if (negb force && Git.hasUncommittedChanges name w)%bool then
    (false, w)
  else
    (true, Ports.releaseSlot name (Git.removeWorktree name w)).

(** An entry of [git worktree list --porcelain]. *)
Record WorktreeEntry : Type := mkEntry {
  wt_path : string;
  wt_branch : option string
}.

Definition lowerChar (c : ascii) : ascii :=
  let n := nat_of_ascii c in
  if ((65 <=? n) && (n <=? 90))%nat%bool then ascii_of_nat (n + 32) else c.

(** [p.replace(/\\/g, '/').toLowerCase()], on ASCII letters. *)
Fixpoint normalizePath (p : string) : string :=
  match p with
  | EmptyString => EmptyString
  | String c r =>
      String (if Ascii.eqb c "\" then "/"%char else lowerChar c)
             (normalizePath r)
  end.

(** The loop of [cleanupAll], with the counter [removed]. *)
Fixpoint cleanupLoop (force : bool)
    (normalizedProjectRoot normalizedWorktreesDir : string)
    (worktrees : list WorktreeEntry) (removed : Z) (w : World)
    : Z * World :=
  match worktrees with
  | [] => (removed, w)
  | wt :: rest =>
      let normalizedWtPath := normalizePath (wt_path wt) in
      if String.eqb normalizedWtPath normalizedProjectRoot then
        cleanupLoop force normalizedProjectRoot normalizedWorktreesDir
          rest removed w
      else if String.prefix normalizedWorktreesDir normalizedWtPath then
        let name := Config.getWorktreeName (wt_path wt) in
        let '(_, w') := removeWorktree name force w in
        cleanupLoop force normalizedProjectRoot normalizedWorktreesDir
          rest (removed + 1) w'
      else
        cleanupLoop force normalizedProjectRoot normalizedWorktreesDir
          rest removed w
  end.

(** [cleanupAll(force, removeVolumes)]: [projectRoot] is what
    [findProjectRoot] returns, [worktreesDir] is
    [join(projectRoot, config.project.worktree_dir)] and [worktrees]
    what [getExistingWorktrees] parses. The result is the number the
    final message reports. *)
Definition cleanupAll (force : bool) (projectRoot worktreesDir : string)
    (worktrees : list WorktreeEntry) (w : World) : Z * World :=
  cleanupLoop force (normalizePath projectRoot)
    (normalizePath worktreesDir) worktrees 0 w.

End Operations.

(** ** [operations.js]: the development context *)

Module Context.
Import Js.

Record DevContext : Type := mkDevContext {
  projectRoot : string;
  workingDir : string;
  isWorktree : bool;
  worktreeName : option string;
  slot : Z;
  composePath : string;
  composeProject : string;
  config : Config.MonorepoConfig
}.

(** [s.indexOf(needle)] as the text before the first occurrence and the
    text after it ([s.slice(0, idx)] and [s.slice(idx + needle.length)]);
    [None] stands for [-1]. *)
Fixpoint splitFirst (needle s : string) : option (string * string) :=
  match Compose.stripPrefix needle s with
  | Some rest => Some (EmptyString, rest)
  | None =>
      match s with
      | EmptyString => None
      | String c r =>
          match splitFirst needle r with
          | Some (before, rest) => Some (String c before, rest)
          | None => None
          end
      end
  end.

(** [s.split('/')[0]] *)
Fixpoint firstSegment (s : string) : string :=
  match s with
  | EmptyString => EmptyString
  | String c r =>
      if Ascii.eqb c "/" then EmptyString else String c (firstSegment r)
  end.

(** [s.replace(/\\/g, '/')] *)
Fixpoint slashes (s : string) : string :=
  match s with
  | EmptyString => EmptyString
  | String c r =>
      String (if Ascii.eqb c "\" then "/"%char else c) (slashes r)
  end.

Record Located : Type := mkLocated {
  loc_projectRoot : string;
  loc_isInWorktree : bool;
  loc_worktreeName : option string
}.

(** [findRealProjectRoot()], for the working directory [cwd];
    [gitRoot] is what [findProjectRoot()] answers when it is called. *)
Definition findRealProjectRoot (cwd : string) (gitRoot : Result string)
    : Result Located :=
  match splitFirst "/.worktrees/" (slashes cwd) with
  | Some (projectRoot, afterWorktrees) =>
      Ok (mkLocated projectRoot true (Some (firstSegment afterWorktrees)))
  | None =>
      match gitRoot with
      | Ok root => Ok (mkLocated root false None)
      | Throw message => Throw message
      end
  end.

Definition getComposeFilename (worktreeName : option string) : string :=
  if truthy worktreeName
  then "docker-compose.wt-" +:+ orString worktreeName "" +:+ ".yml"
  else "docker-compose.yml".

Definition getComposeProject (config : Config.MonorepoConfig)
    (worktreeName : option string) : string :=
  if truthy worktreeName then "wt-" +:+ orString worktreeName ""
  else Config.project_name config.

Section Paths.
(** [path.join] of the Node library. *)
Variable join : list string → string.

Definition getComposePath (projectRoot : string)
    (config : Config.MonorepoConfig) (worktreeName : option string)
    : string :=
  if truthy worktreeName then
    join [projectRoot; Config.worktree_dir config;
          orString worktreeName ""; getComposeFilename worktreeName]
  else join [projectRoot; "docker-compose.yml"].

Definition notFoundMessage (effectiveName worktreePath : string) : string :=
  "Worktree '" +:+ effectiveName +:+ "' not found at " +:+ worktreePath.

Definition noSlotMessage (effectiveName : string) : string :=
  "No slot assigned for worktree '" +:+ effectiveName
    +:+ "'. Was it created with this CLI?".

(** [getDevContext(worktreeName)]; [config] is what
    [loadMonorepoConfig(projectRoot)] returns. *)
Definition getDevContext (cwd : string) (gitRoot : Result string)
    (config : Config.MonorepoConfig) (worktreeName : option string)
    (w : World) : Result DevContext :=
  match findRealProjectRoot cwd gitRoot with
  | Throw message => Throw message
  | Ok located =>
      let projectRoot := loc_projectRoot located in
      let effectiveName :=
        match worktreeName with
        | Some n => Some n
        | None => loc_worktreeName located
        end in
      if truthy effectiveName then
        let n := orString effectiveName "" in
        let worktreePath :=
          join [projectRoot; Config.worktree_dir config; n] in
        if negb (Operations.existsWorktree n w) then
          Throw (notFoundMessage n worktreePath)
        else
          match Ports.getSlot n w with
          | None => Throw (noSlotMessage n)
          | Some slot =>
              Ok (mkDevContext projectRoot worktreePath true (Some n) slot
                    (getComposePath projectRoot config (Some n))
                    (getComposeProject config (Some n))
                    config)
          end
      else
        Ok (mkDevContext projectRoot projectRoot false None 0
              (getComposePath projectRoot config None)
              (getComposeProject config None)
              config)
  end.

End Paths.

End Context.

(** ** [config.js]: the list of checkouts *)

Module WorktreeList.
Import Js.

(** [text.split('\n')] *)
Fixpoint splitLines (text : string) : list string :=
  match text with
  | EmptyString => [EmptyString]
  | String c r =>
      if Ascii.eqb c "010" then EmptyString :: splitLines r
      else
        match splitLines r with
        | line :: lines => String c line :: lines
        | [] => [String c EmptyString]
        end
  end.

(** The object [current]: [{}], [{ path }] or [{ path, branch }]. *)
Record Current : Type := mkCurrent {
  cur_path : option string;
  cur_branch : option string
}.

(** [if (current.path) worktrees.push(current)] *)
Definition pushCurrent (current : Current)
    (worktrees : list Operations.WorktreeEntry)
    : list Operations.WorktreeEntry :=
  if truthy (cur_path current)
  then worktrees ++ [Operations.mkEntry (orString (cur_path current) "")
                       (cur_branch current)]
  else worktrees.

(** One iteration of the loop over the lines. *)
Definition parseLine
    (state : list Operations.WorktreeEntry * Current) (line : string)
    : list Operations.WorktreeEntry * Current :=
  let '(worktrees, current) := state in
  match Compose.stripPrefix "worktree " line with
  | Some path => (pushCurrent current worktrees, mkCurrent (Some path) None)
  | None =>
      match Compose.stripPrefix "branch " line with
      | Some branch =>
          (worktrees, mkCurrent (cur_path current) (Some branch))
      | None => state
      end
  end.

Definition parseLines (lines : list string)
    : list Operations.WorktreeEntry :=
  let '(worktrees, current) :=
    fold_left parseLine lines ([], mkCurrent None None) in
  pushCurrent current worktrees.

(** [getExistingWorktrees(projectRoot)]; [output] is what
    [git worktree list --porcelain] printed, after [trim()], or the
    error of the call. *)
Definition getExistingWorktrees (output : Result string)
    : list Operations.WorktreeEntry :=
  match output with
  | Ok trimmed => parseLines (splitLines trimmed)
  | Throw _ => []
  end.

End WorktreeList.


(** ** Notions used to state the properties *)

Module Vocabulary.
Import Js.

(** *** The registry *)

(** The numbers [calculateHostPort] meets on the way (operands, product
    and sum) are safe integers, so that its double arithmetic is that
    of the integers. *)
Definition exactPort (basePort slot offset : Z) : bool :=
  isSafeInteger basePort && isSafeInteger slot && isSafeInteger offset
  && isSafeInteger (slot * offset)
  && isSafeInteger (basePort + slot * offset).

(** A slot is used when some entry of the registry holds it. *)
Definition used (slots : gmap string Z) (i : Z) : Prop :=
  ∃ n, slots !! n = Some i.

(** Calls of [assignSlot] made one after the other, results dropped. *)
Definition assignMany (calls : list (string * Z)) (w : World) : World :=
  fold_left (fun w '(n, m) => (Ports.assignSlot n m w).2) calls w.

(** *** Names and references *)

(** Every character of [s] passes the test [p]. *)
Fixpoint allChars (p : ascii → bool) (s : string) : bool :=
  match s with
  | EmptyString => true
  | String c r => p c && allChars p r
  end.

(** A name the groups [(\w+)] can capture: non-empty, word characters
    only. *)
Definition isWordName (s : string) : bool :=
  match s with
  | EmptyString => false
  | String _ _ => allChars Compose.isWordChar s
  end.

Definition notBrace (c : ascii) : bool :=
  negb (Ascii.eqb c "{" || Ascii.eqb c "}").

(** A name that can stand between the braces of a reference: it holds
    no brace of its own. Every word name is one. *)
Definition noBrace (s : string) : bool := allChars notBrace s.

Definition notOpen (c : ascii) : bool := negb (Ascii.eqb c "{").

(** [x] is empty or begins with a character that is not a word
    character. *)
Definition headNonWord (x : string) : Prop :=
  match x with
  | EmptyString => True
  | String c _ => Compose.isWordChar c = false
  end.

(** [x] is empty or begins with an opening brace. *)
Definition headOpen (x : string) : Prop :=
  match x with
  | EmptyString => True
  | String c _ => c = "{"%char
  end.

(** What the replacement with callback [f] makes of a reference whose
    names hold no brace: the callback's answer when both are word names,
    the reference itself otherwise. *)
Definition replaced (f : string → string → string → string)
    (svcName portName : string) : string :=
  if isWordName svcName && isWordName portName
  then f (Compose.refText svcName portName) svcName portName
  else Compose.refText svcName portName.

(** A value cut into plain text and references. *)
Inductive Piece : Type :=
| Text (t : string)
| Ref (svcName portName : string).

Definition pieceSource (p : Piece) : string :=
  match p with
  | Text t => t
  | Ref svcName portName => Compose.refText svcName portName
  end.

Definition pieceResult (f : string → string → string → string)
    (p : Piece) : string :=
  match p with
  | Text t => t
  | Ref svcName portName => replaced f svcName portName
  end.

(** Plain text holds no opening brace, the names of a reference no
    brace. *)
Definition pieceOk (p : Piece) : bool :=
  match p with
  | Text t => allChars notOpen t
  | Ref svcName portName => noBrace svcName && noBrace portName
  end.

Definition joinPieces (render : Piece → string) (ps : list Piece) : string :=
  fold_right (fun p acc => render p +:+ acc) "" ps.

(** *** Objects and the generated file *)

(** A loop [for (const [k, x] of entries) o[h(k)] = g(x)]. *)
Definition setAll {V X : Type} (h : string → string) (g : X → V)
    (entries : Rec X) (o : Rec V) : Rec V :=
  fold_left (fun o '(k, x) => set o (h k) (g x)) entries o.

(** The names declared at the top level of a compose file. *)
Definition declaredVolumes (c : Compose.ComposeFile) : list string :=
  match Compose.top_volumes c with
  | Some vols => keys vols
  | None => []
  end.

(** The mount [name:path] of a named volume. *)
Definition mountOf (q : string → string) (entry : string * string)
    : string :=
  q entry.1 +:+ ":" +:+ entry.2.

(** The named volumes of a catalog entry. *)
Definition namedEntries (service : Config.ServiceConfig) : Rec string :=
  match Config.named_volumes service with
  | Some entries => entries
  | None => []
  end.

(** The environment of a catalog entry. *)
Definition envEntries (service : Config.ServiceConfig) : Rec string :=
  match Config.env service with
  | Some entries => entries
  | None => []
  end.

(** The value the generated definition gives to [key] in the
    environment of the service [svcName]. *)
Definition envValue (c : Compose.ComposeFile) (svcName key : string)
    : option string :=
  match get (Compose.services c) svcName with
  | Some svc =>
      match Compose.environment svc with
      | Some e => get e key
      | None => None
      end
  | None => None
  end.

(** *** Cleanup *)

(** The entries on which the loop of [cleanupAll] calls
    [removeWorktree]. *)
Definition attempted (normalizedProjectRoot normalizedWorktreesDir : string)
    (wt : Operations.WorktreeEntry) : bool :=
  negb (String.eqb (Operations.normalizePath (Operations.wt_path wt))
                   normalizedProjectRoot)
  && String.prefix normalizedWorktreesDir
       (Operations.normalizePath (Operations.wt_path wt)).

End Vocabulary.

(** ** Sample data used by the closed instances of Part II *)

Module Samples.

(** A registry holding slots 1 and 3. *)
Definition worldGap : World :=
  mkWorld (Some {[ "a" := 1; "b" := 3 ]}) {[ "a"; "b" ]} ∅ ∅.

(** A registry whose only slot is taken. *)
Definition worldFull : World :=
  mkWorld (Some {[ "a" := 1 ]}) {[ "a" ]} ∅ ∅.


(** A catalog of three services. [web] refers to the ports of the two
    others; [api] and [db] mount the same named volume. *)
Definition api : Config.ServiceConfig :=
  Config.mkService "api" None (Some "services/api") None None
    [("main", 3000); ("debug", 9229)] None None None None
    (Some [("data", "/var/lib/api")]).

Definition db : Config.ServiceConfig :=
  Config.mkService "db" (Some "postgres:16") None None None
    [("main", 5432)] None None None None
    (Some [("data", "/var/lib/postgresql/data"); ("backup", "/backup")]).

Definition web : Config.ServiceConfig :=
  Config.mkService "web" None (Some "web") None None
    [("main", 8080)]
    (Some [("API_URL",
            "http://localhost:{api.main.host}/v1?db={db.main.host}&dbg={api.debug.host}&again={api.main.host}");
           ("CACHE_URL", "redis://{cache.main.host}/{api.metrics.host}")])
    None None None None.

Definition catalog : Config.MonorepoConfig :=
  Config.mkConfig "shop" ".worktrees" 1000 5 [api; db; web] None.

(** A service with a hyphen in its name, and one that refers to it. *)
Definition coreApi : Config.ServiceConfig :=
  Config.mkService "core-api" None (Some "core") None None
    [("main", 3000)] None None None None None.

Definition front : Config.ServiceConfig :=
  Config.mkService "front" None (Some "front") None None
    [("main", 8080)]
    (Some [("API_URL", "http://localhost:{core-api.main.host}")])
    None None None None.

Definition catalogHyphen : Config.MonorepoConfig :=
  Config.mkConfig "shop" ".worktrees" 1000 5 [coreApi; front] None.

(** A service with an opening brace in its name, next to [api]. *)
Definition braced : Config.ServiceConfig :=
  Config.mkService "x{api" None (Some "x") None None
    [("main", 4000)] None None None None None.

Definition portal : Config.ServiceConfig :=
  Config.mkService "portal" None (Some "portal") None None
    [("main", 8080)]
    (Some [("X_URL", "{x{api.main.host}")])
    None None None None.

Definition catalogBrace : Config.MonorepoConfig :=
  Config.mkConfig "shop" ".worktrees" 1000 5 [api; braced; portal] None.

(** The same reference with no service [x{api] in the catalog. *)
Definition catalogDangling : Config.MonorepoConfig :=
  Config.mkConfig "shop" ".worktrees" 1000 5 [api; portal] None.


(** Two checkouts made earlier, both holding a slot. *)
Definition worldHeld : World :=
  mkWorld (Some {[ "foo" := 1; "bar" := 2 ]}) {[ "foo"; "bar" ]} ∅
          {[ "foo"; "bar" ]}.

Definition fooConfig : Operations.WorktreeConfig :=
  Operations.mkWorktreeConfig "foo" "worktree/foo-20260101" "main" 0
    catalog.

(** Two checkouts, the first with uncommitted changes. *)
Definition worldDirty : World :=
  mkWorld (Some {[ "a" := 1; "b" := 2 ]}) {[ "a"; "b" ]} {[ "a" ]}
          {[ "a"; "b" ]}.

(** What [git worktree list --porcelain] reports for it. *)
Definition listed : list Operations.WorktreeEntry :=
  [ Operations.mkEntry "/repo" (Some "refs/heads/main");
    Operations.mkEntry "/repo/.worktrees/a" (Some "refs/heads/worktree/a");
    Operations.mkEntry "/repo/.worktrees/b" (Some "refs/heads/worktree/b") ].

End Samples.

(** ** Invariants and further notions *)

Module Invariants.
Import Js.

(** A registry as [assignSlot] builds it for a limit of [maxWorktrees]:
    every slot lies in 1..maxWorktrees and no two names share one. *)
Definition registryOk (maxWorktrees : Z) (slots : gmap string Z) : Prop :=
  (∀ n s, slots !! n = Some s → 1 ≤ s ≤ maxWorktrees)
  ∧ (∀ n1 n2 s, slots !! n1 = Some s → slots !! n2 = Some s → n1 = n2).

(** A row of the port table as a [host:container] pair. *)
Definition portPair (p : Config.ServicePort) : string :=
  String_ (Config.sp_host p) +:+ ":" +:+ String_ (Config.sp_base p).

(** The port mappings of a generated service ([undefined] read as
    none). *)
Definition portsOf (svc : Compose.Service) : list string :=
  match Compose.ports svc with
  | Some l => l
  | None => []
  end.

(** A path segment: neither kind of separator in it. *)
Definition notSeparator (c : ascii) : bool :=
  negb (Ascii.eqb c "/" || Ascii.eqb c "\").

Definition isSegment (s : string) : bool :=
  Vocabulary.allChars notSeparator s.

(** A name that stands for one directory of its own under the worktrees
    directory: one non-empty path segment, neither [.] nor [..]. For
    such names [join(worktreesDir, name)] lies directly under
    [worktreesDir], and different names give different paths. *)
Definition isName (s : string) : bool :=
  isSegment s
  && negb (String.eqb s "") && negb (String.eqb s ".")
  && negb (String.eqb s "..").

(** A key made of digits only; the integer-like keys, which an object
    lists first and in numeric order, are among these. *)
Definition isDigit (c : ascii) : bool :=
  (48 <=? nat_of_ascii c)%nat && (nat_of_ascii c <=? 57)%nat.

Definition integerKey (k : string) : bool :=
  negb (String.eqb k "") && Vocabulary.allChars isDigit k.

(** A key that an assignment [o[k] = v] appends to the keys of [o]:
    neither a string of digits nor a member of [Object.prototype]
    (among them [__proto__], which such an assignment does not add). *)
Definition plainKey (k : string) : bool :=
  negb (integerKey k) && negb (inheritedKey k).






(** What [git worktree list --porcelain] prints for one checkout: its
    path, its commit, its branch (or [detached]) and an empty line. *)
Definition porcelain (sha : string) (entry : Operations.WorktreeEntry)
    : list string :=
  ["worktree " +:+ Operations.wt_path entry; "HEAD " +:+ sha]
  ++ match Operations.wt_branch entry with
     | Some branch => ["branch " +:+ branch]
     | None => ["detached"]
     end
  ++ [""].

Definition noNewline (s : string) : bool :=
  Vocabulary.allChars (fun c => negb (Ascii.eqb c "010")) s.

(** An entry as the list can show it: a non-empty path, no line break
    in the path or in the branch. *)
Definition entryOk (entry : Operations.WorktreeEntry) : bool :=
  truthy (Some (Operations.wt_path entry))
  && noNewline (Operations.wt_path entry)
  && match Operations.wt_branch entry with
     | Some branch => noNewline branch
     | None => true
     end.

(** [lines.join(newline)] *)
Definition joinLines (lines : list string) : string :=
  String.concat (String "010" "") lines.


End Invariants.

(** ** Further sample data *)

Module Scenarios.

(** A service whose environment holds no reference. *)
Definition worker : Config.ServiceConfig :=
  Config.mkService "worker" (Some "node:22") None None (Some "npm start")
    [] (Some [("NODE_ENV", "development"); ("PORT", "3000")])
    None None None None.

Definition catalogPlain : Config.MonorepoConfig :=
  Config.mkConfig "shop" ".worktrees" 1000 5 [worker] None.


Definition workerConfig : Operations.WorktreeConfig :=
  Operations.mkWorktreeConfig "wt-1" "worktree/wt-1-20260101" "main" 0
    catalogPlain.

(** A project that allows one checkout only, and a second checkout
    asked of it. *)
Definition catalogTight : Config.MonorepoConfig :=
  Config.mkConfig "shop" ".worktrees" 1000 1 [worker] None.

Definition tightConfig : Operations.WorktreeConfig :=
  Operations.mkWorktreeConfig "b" "worktree/b-20260101" "main" 0
    catalogTight.

(** The first value of [web]'s environment, cut into its pieces. *)
Definition apiUrlPieces : list Vocabulary.Piece :=
  [ Vocabulary.Text "http://localhost:"; Vocabulary.Ref "api" "main";
    Vocabulary.Text "/v1?db="; Vocabulary.Ref "db" "main";
    Vocabulary.Text "&dbg="; Vocabulary.Ref "api" "debug";
    Vocabulary.Text "&again="; Vocabulary.Ref "api" "main" ].

(** Nothing created yet: no registry file, no checkout. *)
Definition worldEmpty : World := mkWorld None ∅ ∅ ∅.

(** The outside world on a good day, and with [git worktree add]
    failing. *)
Definition toolsOk : Operations.Tools := Operations.mkTools true true.

(** [path.join] on plain segments. *)
Definition joinPlain (segments : list string) : string :=
  String.concat "/" segments.

End Scenarios.

(* ===================================================================== *)
(** * Part II. Properties                                                 *)
(* ===================================================================== *)

(** ** The slot registry *)

Module PortsSpec.
Import Js Ports Vocabulary.

Lemma used_img (slots : gmap string Z) (i : Z) :
  i ∈ (map_img slots : gset Z) ↔ used slots i.
Proof. apply elem_of_map_img. Qed.

(** What the scan returns is in range, free, and preceded by used
    numbers only. *)
Lemma scanSlots_Some (U : gset Z) (n : nat) : ∀ i s,
  scanSlots U i n = Some s →
  i ≤ s < i + Z.of_nat n ∧ (s ∉ U) ∧ (∀ j, i ≤ j < s → j ∈ U).
Proof.
  induction n as [|n IH]; intros i s; simpl; [discriminate|].
  destruct (decide (i ∈ U)) as [Hi|Hi].
  - intros Hs. destruct (IH _ _ Hs) as (Hr & Hfree & Hlow).
    split; [lia|]. split; [exact Hfree|].
    intros j Hj. destruct (decide (j = i)) as [->|Hne]; [exact Hi|].
    apply Hlow. lia.
  - intros [= <-]. split; [lia|]. split; [exact Hi|]. intros j Hj. lia.
Qed.

(** The scan comes back empty-handed exactly when the whole range is
    used. *)
Lemma scanSlots_None (U : gset Z) (n : nat) : ∀ i,
  scanSlots U i n = None ↔ ∀ j, i ≤ j < i + Z.of_nat n → j ∈ U.
Proof.
  induction n as [|n IH]; intros i; simpl.
  - split; [intros _ j Hj; lia | reflexivity].
  - destruct (decide (i ∈ U)) as [Hi|Hi].
    + rewrite IH. split; intros H j Hj.
      * destruct (decide (j = i)) as [->|Hne]; [exact Hi|]. apply H. lia.
      * apply H. lia.
    + split; [discriminate|]. intros H. exfalso. apply Hi, H. lia.
Qed.

Lemma scanSlots_finds (U : gset Z) (n : nat) (i j : Z) :
  i ≤ j < i + Z.of_nat n → j ∉ U → is_Some (scanSlots U i n).
Proof.
  intros Hj Hfree. destruct (scanSlots U i n) eqn:E; [eauto|].
  exfalso. apply Hfree. eapply scanSlots_None; eauto.
Qed.

Lemma loadSlots_saveSlots (slots : gmap string Z) (w : World) :
  loadSlots (saveSlots slots w) = slots.
Proof. reflexivity. Qed.

(** A name that holds a slot keeps it through any [assignSlot]. *)
Lemma assignSlot_keeps (n name : string) (m s : Z) (w : World) :
  loadSlots w !! name = Some s →
  loadSlots (assignSlot n m w).2 !! name = Some s.
Proof.
  intros Hs. unfold assignSlot, assignSlotRun.
  destruct (loadSlots w !! n) eqn:En; simpl; [exact Hs|].
  destruct (scanSlots _ _ _); simpl; [|exact Hs].
  rewrite loadSlots_saveSlots, lookup_insert_ne; [exact Hs|].
  intros ->. congruence.
Qed.

Lemma assignSlot_present (name : string) (m s : Z) (w : World) :
  loadSlots w !! name = Some s → assignSlot name m w = (Ok s, w).
Proof. intros Hs. unfold assignSlot, assignSlotRun. by rewrite Hs. Qed.

Lemma assignMany_keeps (calls : list (string * Z)) : ∀ w name s,
  loadSlots w !! name = Some s →
  loadSlots (assignMany calls w) !! name = Some s.
Proof.
  induction calls as [|[n m] calls IH]; intros w name s Hs; [exact Hs|].
  simpl. apply IH. by apply assignSlot_keeps.
Qed.

(** C1. For a name the registry does not hold (and that is no member
    of [Object.prototype], which the registry object would answer for),
    [assignSlot] scans 1..maxWorktrees upwards and returns the first
    number no entry uses: the result lies in [1, maxWorktrees], no
    current entry holds it, every smaller number from 1 on is held, and
    the registry written back is the old one with the new pair added. *)
Theorem assignSlot_fresh_first_unused
    (name : string) (maxWorktrees : Z) (w : World) :
  inheritedKey name = false →
  loadSlots w !! name = None →
  (∃ j, 1 ≤ j ≤ maxWorktrees ∧ ¬ used (loadSlots w) j) →
  ∃ s, assignSlot name maxWorktrees w
         = (Ok s, saveSlots (<[name := s]> (loadSlots w)) w)
     ∧ 1 ≤ s ≤ maxWorktrees
     ∧ ¬ used (loadSlots w) s
     ∧ (∀ j, 1 ≤ j < s → used (loadSlots w) j)
     ∧ loadSlots (assignSlot name maxWorktrees w).2
         = <[name := s]> (loadSlots w).
Proof.
  intros _ Hnew (j & Hj & Hfree).
  unfold assignSlot, assignSlotRun. rewrite Hnew.
  destruct (scanSlots_finds (map_img (loadSlots w)) (Z.to_nat maxWorktrees)
              1 j) as [s Hs].
  { lia. }
  { by rewrite used_img. }
  rewrite Hs. simpl.
  destruct (scanSlots_Some _ _ _ _ Hs) as (Hr & Hs_free & Hlow).
  exists s. split; [reflexivity|]. split; [lia|].
  split; [by rewrite <- used_img|]. split; [|reflexivity].
  intros k Hk. apply used_img, Hlow. lia.
Qed.

Lemma assignSlot_fresh_first_unused_witness :
  inheritedKey "c" = false
  ∧ loadSlots Samples.worldGap !! "c" = None
  ∧ (∃ j, 1 ≤ j ≤ 5 ∧ ¬ used (loadSlots Samples.worldGap) j)
  ∧ ∃ s, assignSlot "c" 5 Samples.worldGap
           = (Ok s, saveSlots (<["c" := s]> (loadSlots Samples.worldGap))
                      Samples.worldGap)
       ∧ 1 ≤ s ≤ 5
       ∧ ¬ used (loadSlots Samples.worldGap) s
       ∧ (∀ j, 1 ≤ j < s → used (loadSlots Samples.worldGap) j)
       ∧ loadSlots (assignSlot "c" 5 Samples.worldGap).2
           = <["c" := s]> (loadSlots Samples.worldGap).
Proof.
  assert (H1 : loadSlots Samples.worldGap !! "c" = None) by reflexivity.
  assert (H2 : ∃ j, 1 ≤ j ≤ 5 ∧ ¬ used (loadSlots Samples.worldGap) j).
  { exists 2. split; [lia|]. rewrite <- used_img.
    apply (bool_decide_unpack _). vm_compute. reflexivity. }
  split; [reflexivity|]. split; [exact H1|]. split; [exact H2|].
  exact (assignSlot_fresh_first_unused "c" 5 Samples.worldGap eq_refl H1 H2).
Defined.

(** On that registry the scan passes 1 and stops at 2. *)
Example assignSlot_fills_gap :
  (assignSlot "c" 5 Samples.worldGap).1 = Ok 2
  ∧ loadSlots (assignSlot "c" 5 Samples.worldGap).2
      = {[ "a" := 1; "b" := 3; "c" := 2 ]}.
Proof. split; reflexivity. Qed.

(** Asking again at once gives the same answer, a slot or the error, and
    the same world. *)
Lemma assignSlot_again (name : string) (maxWorktrees : Z) (w : World) :
  assignSlot name maxWorktrees (assignSlot name maxWorktrees w).2
  = assignSlot name maxWorktrees w.
Proof.
  destruct (loadSlots w !! name) as [s|] eqn:En.
  - rewrite (assignSlot_present name maxWorktrees s w En). simpl.
    by apply assignSlot_present.
  - unfold assignSlot at 2 3, assignSlotRun. rewrite En.
    destruct (scanSlots _ _ _) as [i|] eqn:Hscan; simpl.
    + apply assignSlot_present. rewrite loadSlots_saveSlots.
      apply lookup_insert_eq.
    + unfold assignSlot, assignSlotRun. by rewrite En, Hscan.
Qed.

(** C5. Once [assignSlot] has returned a slot for a name, a later call
    for the same name returns the same slot and writes nothing, whatever
    other [assignSlot] calls happened in between (no [releaseSlot]). *)
Theorem assignSlot_idempotent
    (name : string) (maxWorktrees s : Z) (w w1 : World)
    (between : list (string * Z)) :
  assignSlot name maxWorktrees w = (Ok s, w1) →
  assignSlot name maxWorktrees w1 = (Ok s, w1)
  ∧ assignSlot name maxWorktrees (assignMany between w1)
      = (Ok s, assignMany between w1).
Proof.
  intros H1.
  assert (Hheld : loadSlots w1 !! name = Some s).
  { revert H1. unfold assignSlot, assignSlotRun.
    destruct (loadSlots w !! name) eqn:En; simpl.
    - intros [= <- <-]. exact En.
    - destruct (scanSlots _ _ _); simpl; [|discriminate].
      intros [= <- <-]. rewrite loadSlots_saveSlots.
      apply lookup_insert_eq. }
  split.
  - by apply assignSlot_present.
  - apply assignSlot_present. by apply assignMany_keeps.
Qed.

Lemma assignSlot_idempotent_witness :
  assignSlot "c" 5 Samples.worldGap
    = (Ok 2, (assignSlot "c" 5 Samples.worldGap).2)
  ∧ assignSlot "c" 5 (assignSlot "c" 5 Samples.worldGap).2
      = (Ok 2, (assignSlot "c" 5 Samples.worldGap).2)
  ∧ assignSlot "c" 5
      (assignMany [("d", 5); ("a", 5)]
         (assignSlot "c" 5 Samples.worldGap).2)
      = (Ok 2, assignMany [("d", 5); ("a", 5)]
                 (assignSlot "c" 5 Samples.worldGap).2).
Proof.
  assert (H : assignSlot "c" 5 Samples.worldGap
              = (Ok 2, (assignSlot "c" 5 Samples.worldGap).2))
    by reflexivity.
  split; [exact H|].
  exact (assignSlot_idempotent "c" 5 2 Samples.worldGap _
           [("d", 5); ("a", 5)] H).
Defined.

(** C6. When every number of 1..maxWorktrees is held by some entry and
    the name is new (and no member of [Object.prototype], which the
    registry object would answer for), [assignSlot] throws the no-slot
    error; neither the object in memory nor the file changes. *)
Theorem assignSlot_exhausted
    (name : string) (maxWorktrees : Z) (w : World) :
  inheritedKey name = false →
  loadSlots w !! name = None →
  (∀ j, 1 ≤ j ≤ maxWorktrees → used (loadSlots w) j) →
  assignSlotRun name maxWorktrees w
    = (Throw (noSlotsMessage maxWorktrees), loadSlots w, w)
  ∧ assignSlot name maxWorktrees w
    = (Throw (noSlotsMessage maxWorktrees), w).
Proof.
  intros _ Hnew Hfull.
  assert (Hscan : scanSlots (map_img (loadSlots w)) 1
                    (Z.to_nat maxWorktrees) = None).
  { apply scanSlots_None. intros j Hj. apply used_img, Hfull. lia. }
  unfold assignSlot, assignSlotRun. by rewrite Hnew, Hscan.
Qed.

Lemma assignSlot_exhausted_witness :
  inheritedKey "b" = false
  ∧ loadSlots Samples.worldFull !! "b" = None
  ∧ (∀ j, 1 ≤ j ≤ 1 → used (loadSlots Samples.worldFull) j)
  ∧ assignSlotRun "b" 1 Samples.worldFull
      = (Throw (noSlotsMessage 1), loadSlots Samples.worldFull,
         Samples.worldFull)
  ∧ assignSlot "b" 1 Samples.worldFull
      = (Throw (noSlotsMessage 1), Samples.worldFull).
Proof.
  assert (H1 : loadSlots Samples.worldFull !! "b" = None) by reflexivity.
  assert (H2 : ∀ j, 1 ≤ j ≤ 1 → used (loadSlots Samples.worldFull) j).
  { intros j Hj. assert (j = 1) as -> by lia. exists "a". reflexivity. }
  split; [reflexivity|]. split; [exact H1|]. split; [exact H2|].
  exact (assignSlot_exhausted "b" 1 Samples.worldFull eq_refl H1 H2).
Defined.

(** C2. On numbers the arithmetic treats exactly (operands, product
    and sum are safe integers), [calculateHostPort] is
    [basePort + slot * offset]; slot 0 gives the base port back; for a
    positive offset the result grows strictly with the slot; and base
    3000 at slot 2 with offset 1000 is 5000. *)
Theorem calculateHostPort_spec :
  (∀ basePort slot offset,
     exactPort basePort slot offset = true →
     calculateHostPort basePort slot offset = basePort + slot * offset)
  ∧ (∀ basePort offset,
       exactPort basePort 0 offset = true →
       calculateHostPort basePort 0 offset = basePort)
  ∧ (∀ basePort offset slot1 slot2,
       exactPort basePort slot1 offset = true →
       exactPort basePort slot2 offset = true →
       0 < offset → slot1 < slot2 →
       calculateHostPort basePort slot1 offset
         < calculateHostPort basePort slot2 offset)
  ∧ calculateHostPort 3000 2 1000 = 5000.
Proof.
  unfold calculateHostPort. repeat split; intros; try lia; nia.
Qed.

Lemma calculateHostPort_spec_witness :
  exactPort 3000 1 1000 = true ∧ exactPort 3000 2 1000 = true
  ∧ 0 < 1000 ∧ 1 < 2
  ∧ calculateHostPort 3000 1 1000 < calculateHostPort 3000 2 1000.
Proof.
  assert (H1 : 0 < 1000) by lia. assert (H2 : 1 < 2) by lia.
  split; [reflexivity|]. split; [reflexivity|].
  split; [exact H1|]. split; [exact H2|].
  exact (proj1 (proj2 (proj2 calculateHostPort_spec)) 3000 1000 1 2
           eq_refl eq_refl H1 H2).
Defined.

End PortsSpec.

(** ** Strings *)

Module StringFacts.
Import Vocabulary.

Lemma app_assoc (a b c : string) : (a +:+ b) +:+ c = a +:+ (b +:+ c).
Proof. induction a as [|x a IH]; simpl; [reflexivity|]. by rewrite IH. Qed.

Lemma app_nil_r (a : string) : a +:+ "" = a.
Proof. induction a as [|x a IH]; simpl; [reflexivity|]. by rewrite IH. Qed.

Lemma length_app (a b : string) :
  String.length (a +:+ b) = (String.length a + String.length b)%nat.
Proof. induction a as [|x a IH]; simpl; [reflexivity|]. by rewrite IH. Qed.

(** Concatenations associated to the right, literals unfolded. *)
Ltac norm_app := repeat first [rewrite !app_assoc | progress simpl].

Lemma allChars_app (p : ascii → bool) (a b : string) :
  allChars p (a +:+ b) = allChars p a && allChars p b.
Proof.
  induction a as [|x a IH]; simpl; [reflexivity|].
  by rewrite IH, andb_assoc.
Qed.

End StringFacts.

(** ** The reference expression *)

Module RegexSpec.
Import Js Compose Vocabulary StringFacts.

Lemma headOpen_nonWord (x : string) : headOpen x → headNonWord x.
Proof. destruct x as [|c x]; simpl; [done|]. by intros ->. Qed.

Lemma isWordChar_notBrace (c : ascii) : isWordChar c = true → notBrace c = true.
Proof.
  unfold notBrace. destruct (Ascii.eqb_spec c "{") as [->|]; [done|].
  destruct (Ascii.eqb_spec c "}") as [->|]; done.
Qed.

Lemma word_noBrace (s : string) :
  allChars isWordChar s = true → noBrace s = true.
Proof.
  induction s as [|c s IH]; simpl; [done|].
  intros [Hc Hs]%andb_true_iff. unfold noBrace in *. simpl.
  by rewrite isWordChar_notBrace, IH.
Qed.

Lemma wordName_noBrace (s : string) :
  isWordName s = true → noBrace s = true.
Proof. destruct s; [done|]. apply word_noBrace. Qed.

Lemma noBrace_notOpen (s : string) :
  noBrace s = true → allChars notOpen s = true.
Proof.
  induction s as [|c s IH]; simpl; [done|]. unfold noBrace. simpl.
  intros [Hc Hs]%andb_true_iff. rewrite IH by exact Hs.
  unfold notBrace, notOpen in *. by destruct (Ascii.eqb c "{").
Qed.

(** *** [spanWord] *)

Lemma spanWord_spec (s : string) :
  s = (spanWord s).1 +:+ (spanWord s).2
  ∧ allChars isWordChar (spanWord s).1 = true
  ∧ headNonWord (spanWord s).2.
Proof.
  induction s as [|c s (IH1 & IH2 & IH3)]; simpl; [done|].
  destruct (isWordChar c) eqn:Hc; simpl.
  - destruct (spanWord s) as [w t]; simpl in *.
    rewrite Hc. by rewrite <- IH1.
  - by rewrite Hc.
Qed.

(** What follows the string does not change the run as long as it
    cannot prolong it. *)
Lemma spanWord_app (s x : string) :
  headNonWord x →
  spanWord (s +:+ x) = ((spanWord s).1, (spanWord s).2 +:+ x).
Proof.
  intros Hx. induction s as [|c s IH]; simpl.
  - destruct x as [|d x]; simpl in *; [done|]. by rewrite Hx.
  - destruct (isWordChar c); [|done].
    rewrite IH. by destruct (spanWord s).
Qed.

Lemma spanWord_word (s : string) :
  allChars isWordChar s = true → spanWord s = (s, "").
Proof.
  induction s as [|c s IH]; simpl; [done|].
  intros [Hc Hs]%andb_true_iff. by rewrite Hc, IH.
Qed.

(** A string with a character that is no word character leaves a
    non-empty rest. *)
Lemma spanWord_nonword (s : string) :
  allChars isWordChar s = false →
  ∃ c t, (spanWord s).2 = String c t ∧ isWordChar c = false.
Proof.
  induction s as [|c s IH]; simpl; [done|].
  destruct (isWordChar c) eqn:Hc; simpl.
  - intros Hs. destruct (IH Hs) as (d & t & Ht & Hd).
    destruct (spanWord s) as [w t']. simpl in *. eauto.
  - eauto.
Qed.

(** *** [stripPrefix] *)

Lemma stripPrefix_app (p s : string) : stripPrefix p (p +:+ s) = Some s.
Proof.
  induction p as [|a p IH]; simpl; [by destruct s|].
  by rewrite Ascii.eqb_refl.
Qed.

Lemma stripPrefix_Some (p : string) : ∀ s r,
  stripPrefix p s = Some r → s = p +:+ r.
Proof.
  induction p as [|a p IH]; intros s r; simpl.
  - destruct s; by intros [= <-].
  - destruct s as [|b s]; [done|].
    destruct (Ascii.eqb_spec a b) as [->|]; [|done].
    intros H. by rewrite (IH _ _ H).
Qed.

(** Appending text that starts with an opening brace never completes a
    prefix that has none. *)
Lemma stripPrefix_app_open (p : string) : ∀ s x,
  allChars notOpen p = true → headOpen x →
  stripPrefix p (s +:+ x) = (λ r, r +:+ x) <$> stripPrefix p s.
Proof.
  induction p as [|a p IH]; intros s x Hp Hx; simpl.
  - by destruct s, x.
  - simpl in Hp. apply andb_true_iff in Hp as [Ha Hp].
    destruct s as [|b s]; simpl.
    + destruct x as [|d x]; simpl in *; [done|]. subst d.
      unfold notOpen in Ha. by destruct (Ascii.eqb a "{").
    + destruct (Ascii.eqb a b); [by apply IH | done].
  Qed.

(** With no brace in [t], the text [t.…] cannot start with [q}] when
    [q] holds no dot. *)
Lemma stripPrefix_blocked (q : string) : ∀ t y,
  allChars (λ a, negb (Ascii.eqb a ".")) q = true →
  noBrace t = true →
  stripPrefix (q +:+ "}") (t +:+ String "." y) = None.
Proof.
  induction q as [|a q IH]; intros t y Hq Ht;
    cbn [String.append stripPrefix].
  - destruct t as [|b t]; cbn [String.append stripPrefix]; [done|].
    unfold noBrace in Ht. cbn [allChars] in Ht.
    apply andb_true_iff in Ht as [Hb _]. unfold notBrace in Hb.
    destruct (Ascii.eqb_spec "}" b) as [<-|]; done.
  - simpl in Hq. apply andb_true_iff in Hq as [Ha Hq].
    destruct t as [|b t]; simpl.
    + by destruct (Ascii.eqb a ".").
    + unfold noBrace in Ht. simpl in Ht.
      apply andb_true_iff in Ht as [_ Ht].
      destruct (Ascii.eqb a b); [by apply IH | done].
Qed.

(** *** One attempt of the expression *)

Lemma stripPrefix_cons (a b : ascii) (p s : string) :
  stripPrefix (String a p) (String b s)
  = if Ascii.eqb a b then stripPrefix p s else None.
Proof. reflexivity. Qed.

Local Arguments stripPrefix : simpl never.

(** A match is the text of a reference with word names, and the rest. *)
Lemma matchRefAt_inv (s g1 g2 rest : string) :
  matchRefAt s = Some (g1, g2, rest) →
  s = refText g1 g2 +:+ rest
  ∧ isWordName g1 = true ∧ isWordName g2 = true.
Proof.
  destruct s as [|c r]; simpl; [done|].
  destruct (Ascii.eqb_spec c "{") as [->|]; [|done].
  pose proof (spanWord_spec r) as (Hr & Hw1 & _).
  destruct (spanWord r) as [[|c1 w1] [|d r2]]; simpl in *; try done.
  destruct (Ascii.eqb_spec d ".") as [->|]; [|done].
  pose proof (spanWord_spec r2) as (Hr2 & Hw2 & _).
  destruct (spanWord r2) as [[|c2 w2] r3]; simpl in *; [done|].
  destruct (stripPrefix ".host}" r3) as [rest'|] eqn:Hstrip; [|done].
  intros [= <- <- <-]. apply stripPrefix_Some in Hstrip.
  split; [|done]. unfold refText. simpl.
  rewrite Hr, Hr2, Hstrip. by norm_app.
Qed.

Lemma matchRefAt_shorter (s g1 g2 rest : string) :
  matchRefAt s = Some (g1, g2, rest) →
  (String.length rest < String.length s)%nat.
Proof.
  intros (-> & _ & _)%matchRefAt_inv. unfold refText.
  rewrite !length_app. simpl. lia.
Qed.

(** An attempt inside a text is not affected by a following text that
    starts with an opening brace: it ends, matched or failed, before
    that brace. *)
Lemma matchRefAt_app_open (c : ascii) (r x : string) :
  headOpen x →
  matchRefAt (String c r +:+ x)
  = (λ '(g1, g2, rest), (g1, g2, rest +:+ x)) <$> matchRefAt (String c r).
Proof.
  intros Hx. simpl. destruct (Ascii.eqb c "{"); [|done].
  rewrite (spanWord_app r x) by by apply headOpen_nonWord.
  destruct (spanWord r) as [[|c1 w1] t]; simpl; [done|].
  destruct t as [|d r2]; simpl.
  - destruct x as [|e x]; simpl in *; [done|]. by subst e.
  - destruct (Ascii.eqb d "."); [|done].
    rewrite (spanWord_app r2 x) by by apply headOpen_nonWord.
    destruct (spanWord r2) as [[|c2 w2] r3]; simpl; [done|].
    rewrite (stripPrefix_app_open ".host}" r3 x) by done.
    by destruct (stripPrefix ".host}" r3).
Qed.

(** At the opening brace of a reference whose names hold no brace, the
    attempt succeeds exactly when both names are word names, and then
    captures them. *)
Lemma matchRefAt_refText (svcName portName post : string) :
  noBrace svcName = true → noBrace portName = true →
  matchRefAt (refText svcName portName +:+ post)
  = if isWordName svcName && isWordName portName
    then Some (svcName, portName, post) else None.
Proof.
  intros Hsvc Hport. unfold refText. norm_app.
  (* the second group and what follows it, for a text [u] with no brace *)
  assert (Hsecond : ∀ u : string, noBrace u = true →
    match spanWord (u +:+ ".host}" +:+ post) with
    | (String c2 w2, r3) =>
        match stripPrefix ".host}" r3 with
        | Some rest => Some (String c2 w2, rest)
        | None => None
        end
    | _ => None
    end = if isWordName u then Some (u, post) else None).
  { intros u Hu. rewrite (spanWord_app u) by done.
    pose proof (spanWord_spec u) as (Hu_eq & Hw & Hhead).
    destruct (allChars isWordChar u) eqn:Hword.
    - rewrite (spanWord_word u Hword). simpl.
      destruct u as [|c2 w2]; [done|]. simpl in Hword. simpl.
      by rewrite Hword.
    - destruct (spanWord_nonword u Hword) as (d & t & Ht & Hd).
      assert (Hnw : isWordName u = false) by by destruct u.
      rewrite Hnw. rewrite Ht in *.
      destruct (spanWord u).1 as [|c2 w2]; [done|].
      cbn [snd String.append]. rewrite stripPrefix_cons.
      destruct (Ascii.eqb "." d); [|done].
      assert (Ht' : noBrace t = true).
      { rewrite Hu_eq in Hu. unfold noBrace in *.
        rewrite allChars_app in Hu. simpl in Hu.
        by repeat (apply andb_true_iff in Hu as [? Hu]). }
      pose proof (stripPrefix_blocked "host" t ("host}" +:+ post)
                    eq_refl Ht') as Hblocked.
      simpl in Hblocked. by rewrite Hblocked. }
  rewrite (spanWord_app svcName) by done.
  pose proof (spanWord_spec svcName) as (Hs_eq & Hw & Hhead).
  destruct (allChars isWordChar svcName) eqn:Hword.
  - rewrite (spanWord_word svcName Hword). simpl.
    destruct svcName as [|c1 w1]; [done|]. simpl in Hword.
    cbn [isWordName allChars]. rewrite Hword.
    specialize (Hsecond portName Hport). simpl in Hsecond.
    destruct (spanWord (portName +:+ _)) as [[|c2 w2] r3].
    + by destruct (isWordName portName).
    + destruct (stripPrefix ".host}" r3);
        by destruct (isWordName portName); simplify_eq.
  - destruct (spanWord_nonword svcName Hword) as (d & t & Ht & Hd).
    assert (Hnw : isWordName svcName = false) by by destruct svcName.
    rewrite Hnw. simpl. rewrite Ht in *.
    destruct (spanWord svcName).1 as [|c1 w1]; [done|].
    cbn [snd String.append].
    destruct (Ascii.eqb_spec d ".") as [->|]; [|done].
    assert (Hu : noBrace (t +:+ "." +:+ portName) = true).
    { rewrite Hs_eq in Hsvc. unfold noBrace in *.
      rewrite !allChars_app in *. simpl in *.
      apply andb_true_iff in Hsvc as [_ Ht'].
      by rewrite Ht', Hport. }
    specialize (Hsecond _ Hu).
    assert (Hnw' : isWordName (t +:+ "." +:+ portName) = false).
    { assert (allChars isWordChar (t +:+ "." +:+ portName) = false).
      { rewrite !allChars_app. simpl. by rewrite andb_false_r. }
      by destruct (t +:+ "." +:+ portName). }
    rewrite Hnw' in Hsecond. revert Hsecond. norm_app.
    destruct (spanWord (t +:+ _)) as [[|c2 w2] r3]; [done|].
    by destruct (stripPrefix ".host}" r3).
Qed.

(** *** The global replacement *)

Section Replace.
Variable f : string → string → string → string.

(** Fuel beyond the length of the text changes nothing. *)
Lemma replaceRefsFrom_fuel (n : nat) : ∀ m s,
  (String.length s ≤ n)%nat → (String.length s ≤ m)%nat →
  replaceRefsFrom n f s = replaceRefsFrom m f s.
Proof.
  induction n as [|n IH]; intros m s Hn Hm.
  - destruct s; [|simpl in Hn; lia]. by destruct m.
  - destruct m as [|m].
    + destruct s; [done | simpl in Hm; lia].
    + destruct s as [|c r]; [done|].
      cbn [replaceRefsFrom].
      destruct (matchRefAt (String c r)) as [[[g1 g2] rest]|] eqn:Hm'.
      * apply matchRefAt_shorter in Hm'.
        rewrite (IH m rest); [done|lia|lia].
      * simpl in Hn, Hm. rewrite (IH m r); [done|lia|lia].
Qed.

Lemma replaceRefs_nil : replaceRefs f "" = "".
Proof. reflexivity. Qed.

(** The search at a character: a match is replaced and the search
    resumes after it, otherwise the character is copied. *)
Lemma replaceRefs_cons (c : ascii) (r : string) :
  replaceRefs f (String c r)
  = match matchRefAt (String c r) with
    | Some (g1, g2, rest) =>
        f (refText g1 g2) g1 g2 +:+ replaceRefs f rest
    | None => String c (replaceRefs f r)
    end.
Proof.
  unfold replaceRefs. cbn [String.length replaceRefsFrom].
  destruct (matchRefAt (String c r)) as [[[g1 g2] rest]|] eqn:Hm; [|done].
  apply matchRefAt_shorter in Hm. simpl in Hm.
  rewrite (replaceRefsFrom_fuel _ (String.length rest)); [done|lia|lia].
Qed.

(** A text that starts with an opening brace is processed on its
    own, whatever precedes it. *)
Lemma replaceRefs_app_open (x : string) (n : nat) : ∀ pre,
  headOpen x → (String.length pre ≤ n)%nat →
  replaceRefs f (pre +:+ x) = replaceRefs f pre +:+ replaceRefs f x.
Proof.
  induction n as [|n IH]; intros pre Hx Hlen.
  - destruct pre; [done | simpl in Hlen; lia].
  - destruct pre as [|c r]; [done|].
    change (String c r +:+ x) with (String c (r +:+ x)).
    rewrite !replaceRefs_cons.
    change (String c (r +:+ x)) with (String c r +:+ x).
    rewrite matchRefAt_app_open by done.
    destruct (matchRefAt (String c r)) as [[[g1 g2] rest]|] eqn:Hm.
    + cbn [fmap option_fmap option_map].
      apply matchRefAt_shorter in Hm. simpl in Hm, Hlen.
      rewrite IH by (done || lia). by rewrite app_assoc.
    + cbn [fmap option_fmap option_map]. simpl in Hlen.
      rewrite IH by (done || lia). done.
Qed.

(** Text without an opening brace is copied. *)
Lemma replaceRefs_plain (t y : string) :
  allChars notOpen t = true →
  replaceRefs f (t +:+ y) = t +:+ replaceRefs f y.
Proof.
  induction t as [|c t IH]; [done|]. cbn [allChars].
  intros [Hc Ht]%andb_true_iff.
  change (String c t +:+ y) with (String c (t +:+ y)).
  rewrite replaceRefs_cons. cbn [matchRefAt].
  unfold notOpen in Hc. destruct (Ascii.eqb c "{"); [done|].
  by rewrite IH.
Qed.

(** Wherever such a reference stands in a text, the text before it,
    the reference and the text after it are processed one after the
    other. *)
Lemma replaceRefs_ref (pre svcName portName post : string) :
  noBrace svcName = true → noBrace portName = true →
  replaceRefs f (pre +:+ refText svcName portName +:+ post)
  = replaceRefs f pre +:+ replaced f svcName portName
      +:+ replaceRefs f post.
Proof.
  intros Hsvc Hport.
  rewrite (replaceRefs_app_open _ (String.length pre)) by done.
  f_equal.
  pose proof (matchRefAt_refText svcName portName post Hsvc Hport) as Hm.
  assert (Hshape : refText svcName portName +:+ post
            = String "{" ((svcName +:+ "." +:+ portName +:+ ".host}")
                            +:+ post)) by reflexivity.
  unfold replaced. rewrite Hshape in Hm |- *.
  rewrite replaceRefs_cons, Hm.
  destruct (isWordName svcName && isWordName portName); [done|].
  rewrite replaceRefs_plain; [reflexivity|].
  rewrite !allChars_app, !noBrace_notOpen by done. reflexivity.
Qed.

(** A value made of plain text and references is replaced piece by
    piece, however many references it holds and whichever they are. *)
Lemma replaceRefs_pieces (ps : list Piece) :
  forallb pieceOk ps = true →
  replaceRefs f (joinPieces pieceSource ps) = joinPieces (pieceResult f) ps.
Proof.
  induction ps as [|p ps IH]; [done|]. cbn [forallb joinPieces fold_right].
  intros [Hp Hps]%andb_true_iff. fold (joinPieces pieceSource ps).
  fold (joinPieces (pieceResult f) ps).
  destruct p as [t|svcName portName]; cbn [pieceSource pieceResult pieceOk] in *.
  - rewrite replaceRefs_plain by done. by rewrite IH.
  - apply andb_true_iff in Hp as [Hsvc Hport].
    pose proof (replaceRefs_ref "" svcName portName
                  (joinPieces pieceSource ps) Hsvc Hport) as Href.
    cbn [String.append] in Href. rewrite replaceRefs_nil in Href.
    cbn [String.append] in Href. by rewrite Href, IH.
Qed.

End Replace.

End RegexSpec.

(** ** Objects as ordered records *)

Module RecFacts.
Import Js Vocabulary.

Section Rec.
Context {V : Type}.
Implicit Types (o : Rec V) (k : string) (v : V).

Lemma get_set_eq o k v : get (set o k v) k = Some v.
Proof.
  induction o as [|[k' v'] o IH]; simpl.
  - by rewrite String.eqb_refl.
  - destruct (String.eqb k' k) eqn:E; simpl; by rewrite E.
Qed.

Lemma get_set_ne o k k' v : k ≠ k' → get (set o k v) k' = get o k'.
Proof.
  intros Hne. induction o as [|[k0 v0] o IH]; simpl.
  - by apply String.eqb_neq in Hne as ->.
  - destruct (String.eqb_spec k0 k) as [->|]; simpl.
    + by apply String.eqb_neq in Hne as ->.
    + by rewrite IH.
Qed.

Lemma elem_of_keys_set o k v q :
  q ∈ keys (set o k v) ↔ q = k ∨ q ∈ keys o.
Proof.
  unfold keys. induction o as [|[k0 v0] o IH]; simpl.
  - rewrite list_elem_of_singleton. split; [by left|].
    intros [?|Hq]; [done|]. by apply elem_of_nil in Hq.
  - destruct (String.eqb_spec k0 k) as [->|]; simpl.
    + rewrite !elem_of_cons. tauto.
    + rewrite !elem_of_cons, IH. tauto.
Qed.

Lemma NoDup_keys_set o k v : NoDup (keys o) → NoDup (keys (set o k v)).
Proof.
  unfold keys. induction o as [|[k0 v0] o IH]; simpl.
  - intros _. apply NoDup_singleton.
  - rewrite !NoDup_cons. intros [Hk0 Ho].
    destruct (String.eqb_spec k0 k) as [->|Hne]; simpl.
    + by rewrite NoDup_cons.
    + rewrite NoDup_cons. split; [|by apply IH].
      intros [?|?]%(elem_of_keys_set o k v k0); [congruence|done].
Qed.

Lemma elem_of_keys_setAll {X : Type} (h : string → string) (g : X → V)
    (entries : Rec X) : ∀ o q,
  q ∈ keys (setAll h g entries o)
  ↔ q ∈ keys o ∨ ∃ k x, (k, x) ∈ entries ∧ q = h k.
Proof.
  induction entries as [|[k x] entries IH]; intros o q; simpl.
  - split; [by left|]. intros [?|(k & x & Hin & _)]; [done|].
    by apply elem_of_nil in Hin.
  - fold (setAll h g entries (set o (h k) (g x))).
    rewrite IH, elem_of_keys_set. split.
    + intros [[->|?]|(k' & x' & ? & ->)]; [right|by left|right].
      * exists k, x. split; [left|done].
      * exists k', x'. split; [by right|done].
    + intros [?|(k' & x' & [[= -> ->]|?]%elem_of_cons & ->)].
      * by left; right.
      * by left; left.
      * right. by exists k', x'.
Qed.

Lemma NoDup_keys_setAll {X : Type} (h : string → string) (g : X → V)
    (entries : Rec X) : ∀ o,
  NoDup (keys o) → NoDup (keys (setAll h g entries o)).
Proof.
  induction entries as [|[k x] entries IH]; intros o Ho; simpl; [done|].
  apply IH. by apply NoDup_keys_set.
Qed.

Lemma get_setAll_other {X : Type} (g : X → V) (entries : Rec X) :
  ∀ o q, q ∉ keys entries → get (setAll id g entries o) q = get o q.
Proof.
  unfold keys. induction entries as [|[k x] entries IH];
    intros o q Hq; simpl; [done|].
  fold (setAll id g entries (set o (id k) (g x))).
  simpl in Hq. rewrite not_elem_of_cons in Hq. destruct Hq as [Hne Hq].
  rewrite IH by done. by apply get_set_ne.
Qed.

(** With distinct keys, every entry ends up under its own key. *)
Lemma get_setAll {X : Type} (g : X → V) (entries : Rec X) :
  ∀ o k x, NoDup (keys entries) → (k, x) ∈ entries →
  get (setAll id g entries o) k = Some (g x).
Proof.
  unfold keys. induction entries as [|[k0 x0] entries IH];
    intros o k x Hnd Hin; simpl.
  - by apply elem_of_nil in Hin.
  - fold (setAll id g entries (set o (id k0) (g x0))).
    simpl in Hnd. apply NoDup_cons in Hnd as [Hk0 Hnd].
    apply elem_of_cons in Hin as [[= -> ->]|Hin].
    + rewrite get_setAll_other by done. apply get_set_eq.
    + by apply IH.
Qed.
End Rec.

End RecFacts.

(** ** The generated definition *)

Module ComposeSpec.
Import Js Compose Vocabulary StringFacts RegexSpec RecFacts.

Section Generated.
Variable worktreeName : string.
Variable slot : Z.
Variable config : Config.MonorepoConfig.

Let q := qualifiedName worktreeName slot.
Let gen := genService worktreeName slot config.

(** One step of the loop over the services. *)
Let step (acc : Rec Service * Rec unit) (service : Config.ServiceConfig)
    : Rec Service * Rec unit :=
  let '(svcs, vols) := acc in
  let '(svc, vols') := gen service vols in
  (set svcs (Config.name service) svc, vols').

Lemma genServices_fold :
  genServices worktreeName slot config
  = fold_left step (Config.services config) ([], []).
Proof. reflexivity. Qed.

(** *** Volumes *)

Lemma named_loop (entries : Rec string) : ∀ (svcVolumes : list string)
    (vols : Rec unit),
  fold_left
    (fun acc entry =>
       let '(svcVolumes, vols) := acc in
       let '(volumeName, mountPath) := entry in
       (svcVolumes ++ [q volumeName +:+ ":" +:+ mountPath],
        set vols (q volumeName) tt))
    entries (svcVolumes, vols)
  = (svcVolumes ++ map (mountOf q) entries,
     setAll q (fun _ : string => tt) entries vols).
Proof.
  induction entries as [|[v m] entries IH]; intros sv vols; simpl.
  - by rewrite List.app_nil_r.
  - rewrite IH. by rewrite <- List.app_assoc.
Qed.

Lemma genVolumes_declared (service : Config.ServiceConfig)
    (vols : Rec unit) :
  (genVolumes worktreeName slot service vols).2
  = setAll q (fun _ : string => tt) (namedEntries service) vols.
Proof.
  unfold genVolumes, namedEntries.
  destruct (Config.named_volumes service) as [entries|]; [|done].
  fold q. by rewrite named_loop.
Qed.

Lemma genVolumes_mounts (service : Config.ServiceConfig)
    (vols : Rec unit) :
  ∃ binds, (genVolumes worktreeName slot service vols).1
           = binds ++ map (mountOf q) (namedEntries service).
Proof.
  unfold genVolumes, namedEntries.
  destruct (Config.named_volumes service) as [entries|].
  - fold q. rewrite named_loop. eauto.
  - simpl. eexists. by rewrite List.app_nil_r.
Qed.

Lemma gen_declared (service : Config.ServiceConfig) (vols : Rec unit) :
  (gen service vols).2
  = setAll q (fun _ : string => tt) (namedEntries service) vols.
Proof.
  unfold gen, genService. rewrite <- genVolumes_declared.
  by destruct (genVolumes worktreeName slot service vols).
Qed.

Lemma gen_volumes (service : Config.ServiceConfig) (vols : Rec unit)
    (entry : string * string) :
  entry ∈ namedEntries service →
  ∃ l, volumes (gen service vols).1 = Some l ∧ mountOf q entry ∈ l.
Proof.
  intros Hin. unfold gen, genService.
  destruct (genVolumes_mounts service vols) as [binds Hb].
  destruct (genVolumes worktreeName slot service vols) as [sv vols'].
  simpl in *. subst sv.
  assert (Hmem : mountOf q entry
                   ∈ binds ++ map (mountOf q) (namedEntries service)).
  { apply elem_of_app. right. by apply list_elem_of_fmap_2. }
  destruct (binds ++ map (mountOf q) (namedEntries service)) as [|x l].
  - by apply elem_of_nil in Hmem.
  - eauto.
Qed.

Lemma gen_environment (service : Config.ServiceConfig)
    (vols : Rec unit) :
  environment (gen service vols).1 = genEnvironment slot config service.
Proof.
  unfold gen, genService.
  by destruct (genVolumes worktreeName slot service vols).
Qed.

(** The top-level object after the services of [l]. *)
Lemma fold_step_declared (l : list Config.ServiceConfig) : ∀ svcs vols,
  NoDup (keys vols) →
  NoDup (keys (fold_left step l (svcs, vols)).2)
  ∧ ∀ name, name ∈ keys (fold_left step l (svcs, vols)).2
      ↔ name ∈ keys vols
        ∨ ∃ service entry, service ∈ l
            ∧ entry ∈ namedEntries service ∧ name = q entry.1.
Proof.
  induction l as [|service l IH]; intros svcs vols Hnd; simpl.
  - split; [done|]. intros name. split; [by left|].
    intros [?|(s & e & Hs & _)]; [done|]. by apply elem_of_nil in Hs.
  - pose proof (gen_declared service vols) as Hdecl.
    destruct (gen service vols) as [svc vols'] eqn:Hgen. simpl in Hdecl.
    destruct (IH (set svcs (Config.name service) svc) vols') as [IH1 IH2].
    { rewrite Hdecl. by apply NoDup_keys_setAll. }
    split; [exact IH1|]. intros name. rewrite IH2, Hdecl.
    rewrite elem_of_keys_setAll. split.
    + intros [[?|(k & x & Hin & ->)]|(s & e & Hs & He & ->)].
      * by left.
      * right. exists service, (k, x). split; [left|done].
      * right. exists s, e. split; [by right|done].
    + intros [?|(s & e & [->|Hs]%elem_of_cons & He & ->)].
      * by left; left.
      * left; right. exists e.1, e.2. by destruct e.
      * right. by exists s, e.
Qed.

(** *** Services *)

Lemma fold_step_other (l : list Config.ServiceConfig) : ∀ svcs vols name,
  name ∉ map Config.name l →
  get (fold_left step l (svcs, vols)).1 name = get svcs name.
Proof.
  induction l as [|service l IH]; intros svcs vols name Hname; simpl;
    [done|].
  simpl in Hname. rewrite not_elem_of_cons in Hname.
  destruct Hname as [Hne Hname].
  destruct (gen service vols) as [svc vols'].
  rewrite IH by done. by apply get_set_ne.
Qed.

(** With distinct service names, each service of the catalog is
    found under its name, generated by its own iteration. *)
Lemma fold_step_service (l : list Config.ServiceConfig) :
  ∀ svcs vols service,
  NoDup (map Config.name l) → service ∈ l →
  ∃ vols0, get (fold_left step l (svcs, vols)).1 (Config.name service)
           = Some (gen service vols0).1.
Proof.
  induction l as [|s l IH]; intros svcs vols service Hnd Hin; simpl.
  - by apply elem_of_nil in Hin.
  - simpl in Hnd. apply NoDup_cons in Hnd as [Hs Hnd].
    apply elem_of_cons in Hin as [->|Hin].
    + exists vols. destruct (gen s vols) as [svc vols'] eqn:Hgen.
      rewrite fold_step_other by done. simpl. apply get_set_eq.
    + destruct (gen s vols) as [svc vols']. by apply IH.
Qed.

Lemma generateCompose_services :
  services (generateCompose worktreeName slot config)
  = (genServices worktreeName slot config).1.
Proof.
  unfold generateCompose.
  by destruct (genServices worktreeName slot config).
Qed.

Lemma generateCompose_declared :
  declaredVolumes (generateCompose worktreeName slot config)
  = keys (genServices worktreeName slot config).2.
Proof.
  unfold generateCompose, declaredVolumes.
  by destruct (genServices worktreeName slot config) as [svcs [|v vols]].
Qed.

(** The service generated for a catalog entry. *)
Lemma generated_service (service : Config.ServiceConfig) :
  NoDup (map Config.name (Config.services config)) →
  service ∈ Config.services config →
  ∃ vols0,
    get (services (generateCompose worktreeName slot config))
        (Config.name service)
    = Some (gen service vols0).1.
Proof.
  intros Hnd Hin. rewrite generateCompose_services, genServices_fold.
  by apply fold_step_service.
Qed.

(** Its environment holds, under each key of the catalog entry, the
    value of that key with its references replaced. *)
Lemma generated_environment (service : Config.ServiceConfig)
    (entries : Rec string) (key value : string) :
  NoDup (map Config.name (Config.services config)) →
  service ∈ Config.services config →
  Config.env service = Some entries →
  NoDup (keys entries) → (key, value) ∈ entries →
  ∃ svc e,
    get (services (generateCompose worktreeName slot config))
        (Config.name service) = Some svc
    ∧ environment svc = Some e
    ∧ get e key = Some (resolveValue slot config value).
Proof.
  intros Hnd Hin Henv Hkeys Hentry.
  destruct (generated_service service Hnd Hin) as [vols0 Hget].
  eexists _, _. split; [exact Hget|].
  rewrite gen_environment. unfold genEnvironment. rewrite Henv.
  split; [reflexivity|].
  by apply (get_setAll (resolveValue slot config) entries []).
Qed.

End Generated.

End ComposeSpec.

(** ** References between services, and named volumes *)

Module GeneratorSpec.
Import Js Compose Vocabulary StringFacts RegexSpec RecFacts ComposeSpec.

Lemma envValue_generated (worktreeName : string) (slot : Z)
    (config : Config.MonorepoConfig) (service : Config.ServiceConfig)
    (entries : Rec string) (key value : string) :
  NoDup (map Config.name (Config.services config)) →
  service ∈ Config.services config →
  Config.env service = Some entries →
  NoDup (keys entries) → (key, value) ∈ entries →
  envValue (generateCompose worktreeName slot config)
           (Config.name service) key
  = Some (resolveValue slot config value).
Proof.
  intros Hnd Hin Henv Hkeys Hentry.
  destruct (generated_environment worktreeName slot config service
              entries key value Hnd Hin Henv Hkeys Hentry)
    as (svc & e & Hsvc & He & Hget).
  unfold envValue. by rewrite Hsvc, He.
Qed.

(** With distinct names, [find] returns the service that bears the
    name. *)
Lemma find_by_name (l : list Config.ServiceConfig)
    (target : Config.ServiceConfig) :
  NoDup (map Config.name l) → target ∈ l →
  find (fun s => String.eqb (Config.name s) (Config.name target)) l
  = Some target.
Proof.
  induction l as [|s l IH]; intros Hnd Hin.
  - by apply elem_of_nil in Hin.
  - simpl in Hnd. apply NoDup_cons in Hnd as [Hs Hnd]. simpl.
    apply elem_of_cons in Hin as [->|Hin].
    + by rewrite String.eqb_refl.
    + destruct (String.eqb_spec (Config.name s) (Config.name target))
        as [Heq|_]; [|by apply IH].
      exfalso. apply Hs. rewrite Heq. by apply list_elem_of_fmap_2.
Qed.

Lemma resolveRef_found (slot : Z) (config : Config.MonorepoConfig)
    (target : Config.ServiceConfig) (matched portName : string)
    (basePort : Z) :
  NoDup (map Config.name (Config.services config)) →
  target ∈ Config.services config →
  get (Config.ports target) portName = Some basePort →
  resolveRef slot config matched (Config.name target) portName
  = String_ (Ports.calculateHostPort basePort slot (Config.offset config)).
Proof.
  intros Hnd Hin Hport. unfold resolveRef.
  by rewrite (find_by_name _ target Hnd Hin), Hport.
Qed.

Lemma resolveRef_missing (slot : Z) (config : Config.MonorepoConfig)
    (matched svcName portName : string) :
  (∀ target, target ∈ Config.services config →
     Config.name target = svcName →
     get (Config.ports target) portName = None) →
  resolveRef slot config matched svcName portName = matched.
Proof.
  intros Hmiss. unfold resolveRef.
  destruct (find _ _) as [target|] eqn:Hfind; [|done].
  apply find_some in Hfind as [Hin Hname].
  apply list_elem_of_In in Hin. apply String.eqb_eq in Hname.
  by rewrite (Hmiss target Hin Hname).
Qed.

(** C4, as the code has it. A reference [{svcA.portName.host}] whose
    two names are made of word characters, to a port that service
    [svcA] of the catalog declares, is replaced in the generated
    environment value by the decimal host port
    [calculateHostPort(base, slot, offset)]; the text before and the
    text after it go through the same replacement, so every occurrence
    and every other reference of the value is dealt with in the one
    pass. *)
Theorem reference_resolved_to_host_port
    (worktreeName : string) (slot : Z) (config : Config.MonorepoConfig)
    (service target : Config.ServiceConfig) (entries : Rec string)
    (key pre portName post : string) (basePort : Z) :
  NoDup (map Config.name (Config.services config)) →
  service ∈ Config.services config →
  Config.env service = Some entries →
  NoDup (keys entries) →
  (key, pre +:+ refText (Config.name target) portName +:+ post)
    ∈ entries →
  target ∈ Config.services config →
  get (Config.ports target) portName = Some basePort →
  isWordName (Config.name target) = true →
  isWordName portName = true →
  envValue (generateCompose worktreeName slot config)
           (Config.name service) key
  = Some (resolveValue slot config pre
            +:+ String_ (Ports.calculateHostPort basePort slot
                           (Config.offset config))
            +:+ resolveValue slot config post).
Proof.
  intros Hnd Hin Henv Hkeys Hentry Htarget Hport Hw1 Hw2.
  rewrite (envValue_generated _ _ _ _ _ _ _ Hnd Hin Henv Hkeys Hentry).
  f_equal. unfold resolveValue.
  rewrite replaceRefs_ref by by apply wordName_noBrace.
  unfold replaced. rewrite Hw1, Hw2. simpl.
  by rewrite (resolveRef_found _ _ target _ _ basePort).
Qed.

(** Closed side conditions are settled by evaluation. *)
Ltac by_compute := apply (bool_decide_unpack _); vm_compute; reflexivity.

Lemma reference_resolved_to_host_port_witness :
  envValue (generateCompose "foo" 2 Samples.catalog) "web" "API_URL"
  = Some (resolveValue 2 Samples.catalog "http://localhost:"
            +:+ String_ (Ports.calculateHostPort 3000 2 1000)
            +:+ resolveValue 2 Samples.catalog
                  "/v1?db={db.main.host}&dbg={api.debug.host}&again={api.main.host}").
Proof.
  refine (reference_resolved_to_host_port "foo" 2 Samples.catalog
            Samples.web Samples.api _ "API_URL" "http://localhost:" "main"
            "/v1?db={db.main.host}&dbg={api.debug.host}&again={api.main.host}"
            3000 _ _ eq_refl _ _ _ eq_refl eq_refl eq_refl).
  - by_compute.
  - by repeat constructor.
  - by_compute.
  - by repeat constructor.
  - by repeat constructor.
Defined.

(** The whole value of that sample: four references, three distinct,
    one of them twice. *)
Example all_references_in_one_pass :
  envValue (generateCompose "foo" 2 Samples.catalog) "web" "API_URL"
  = Some "http://localhost:5000/v1?db=7432&dbg=11229&again=5000".
Proof. vm_compute. reflexivity. Qed.

(** C4 as stated fails: the catalog holds a service [core-api] that
    declares [main], and the reference to it is not replaced by the
    host port. *)
Lemma hyphenated_reference_not_resolved :
  Samples.coreApi ∈ Config.services Samples.catalogHyphen
  ∧ Config.name Samples.coreApi = "core-api"
  ∧ get (Config.ports Samples.coreApi) "main" = Some 3000
  ∧ envValue (generateCompose "foo" 1 Samples.catalogHyphen)
             "front" "API_URL"
    = Some "http://localhost:{core-api.main.host}"
  ∧ envValue (generateCompose "foo" 1 Samples.catalogHyphen)
             "front" "API_URL"
    ≠ Some ("http://localhost:"
              +:+ String_ (Ports.calculateHostPort 3000 1 1000)).
Proof.
  split; [by repeat constructor|]. split; [reflexivity|].
  split; [reflexivity|].
  assert (H : envValue (generateCompose "foo" 1 Samples.catalogHyphen)
                "front" "API_URL"
              = Some "http://localhost:{core-api.main.host}")
    by (vm_compute; reflexivity).
  split; [exact H|]. rewrite H. vm_compute. discriminate.
Qed.

(** C9, as the code has it. A reference whose two names hold no brace,
    to a service the catalog does not hold or to a port its service
    does not declare, stands unchanged in the generated environment
    value; the text around it is processed as usual. Every service of
    the catalog has its table of ports, as [ServiceConfig] declares, so
    the lookup of a port in it does not fail. *)
Theorem unresolvable_reference_left_verbatim
    (worktreeName : string) (slot : Z) (config : Config.MonorepoConfig)
    (service : Config.ServiceConfig) (entries : Rec string)
    (key pre svcName portName post : string) :
  NoDup (map Config.name (Config.services config)) →
  service ∈ Config.services config →
  Config.env service = Some entries →
  NoDup (keys entries) →
  (key, pre +:+ refText svcName portName +:+ post) ∈ entries →
  noBrace svcName = true → noBrace portName = true →
  (∀ target, target ∈ Config.services config →
     Config.name target = svcName →
     get (Config.ports target) portName = None) →
  envValue (generateCompose worktreeName slot config)
           (Config.name service) key
  = Some (resolveValue slot config pre
            +:+ refText svcName portName
            +:+ resolveValue slot config post).
Proof.
  intros Hnd Hin Henv Hkeys Hentry Hb1 Hb2 Hmiss.
  rewrite (envValue_generated _ _ _ _ _ _ _ Hnd Hin Henv Hkeys Hentry).
  f_equal. unfold resolveValue. rewrite replaceRefs_ref by done.
  unfold replaced.
  destruct (isWordName svcName && isWordName portName); [|done].
  by rewrite resolveRef_missing.
Qed.

Lemma unresolvable_reference_left_verbatim_witness :
  envValue (generateCompose "foo" 2 Samples.catalog) "web" "CACHE_URL"
  = Some (resolveValue 2 Samples.catalog "redis://"
            +:+ refText "cache" "main"
            +:+ resolveValue 2 Samples.catalog "/{api.metrics.host}").
Proof.
  refine (unresolvable_reference_left_verbatim "foo" 2 Samples.catalog
            Samples.web _ "CACHE_URL" "redis://" "cache" "main"
            "/{api.metrics.host}" _ _ eq_refl _ _ eq_refl eq_refl _).
  - by_compute.
  - by repeat constructor.
  - by_compute.
  - by repeat constructor.
  - intros target Hin Hname.
    repeat (apply elem_of_cons in Hin as [->|Hin]); try discriminate Hname.
    by apply elem_of_nil in Hin.
Defined.

(** Neither the unknown service nor the undeclared port disturbs the
    value. *)
Example unresolvable_references_kept :
  envValue (generateCompose "foo" 2 Samples.catalog) "web" "CACHE_URL"
  = Some "redis://{cache.main.host}/{api.metrics.host}".
Proof. vm_compute. reflexivity. Qed.

(** C9 as stated fails for a name with a brace in it: the catalog
    holds no service [x{api], and yet the reference to it does not stay
    as it is, because [{api.main.host}] inside it is read as a reference
    to [api]. *)
Lemma dangling_braced_reference_rewritten :
  find (fun service => String.eqb (Config.name service) "x{api")
       (Config.services Samples.catalogDangling) = None
  ∧ get (envEntries Samples.portal) "X_URL" = Some (refText "x{api" "main")
  ∧ envValue (generateCompose "foo" 1 Samples.catalogDangling)
             "portal" "X_URL"
    = Some "{x4000"
  ∧ envValue (generateCompose "foo" 1 Samples.catalogDangling)
             "portal" "X_URL"
    ≠ Some (refText "x{api" "main").
Proof.
  split; [reflexivity|]. split; [reflexivity|].
  assert (H : envValue (generateCompose "foo" 1 Samples.catalogDangling)
                "portal" "X_URL" = Some "{x4000")
    by (vm_compute; reflexivity).
  split; [exact H|]. rewrite H. vm_compute. discriminate.
Qed.

(** C10, as the code has it. A reference whose service name or port
    name is not made of word characters only (a hyphen, a dot, ...),
    and whose names hold no brace, is left as it stands, whether or not
    the catalog has such a service and port. *)
Theorem non_word_reference_left_verbatim
    (worktreeName : string) (slot : Z) (config : Config.MonorepoConfig)
    (service : Config.ServiceConfig) (entries : Rec string)
    (key pre svcName portName post : string) :
  NoDup (map Config.name (Config.services config)) →
  service ∈ Config.services config →
  Config.env service = Some entries →
  NoDup (keys entries) →
  (key, pre +:+ refText svcName portName +:+ post) ∈ entries →
  noBrace svcName = true → noBrace portName = true →
  isWordName svcName = false ∨ isWordName portName = false →
  envValue (generateCompose worktreeName slot config)
           (Config.name service) key
  = Some (resolveValue slot config pre
            +:+ refText svcName portName
            +:+ resolveValue slot config post).
Proof.
  intros Hnd Hin Henv Hkeys Hentry Hb1 Hb2 Hnonword.
  rewrite (envValue_generated _ _ _ _ _ _ _ Hnd Hin Henv Hkeys Hentry).
  f_equal. unfold resolveValue. rewrite replaceRefs_ref by done.
  unfold replaced. by destruct Hnonword as [-> | ->]; rewrite ?andb_false_r.
Qed.

Lemma non_word_reference_left_verbatim_witness :
  envValue (generateCompose "foo" 1 Samples.catalogHyphen)
           "front" "API_URL"
  = Some (resolveValue 1 Samples.catalogHyphen "http://localhost:"
            +:+ refText "core-api" "main"
            +:+ resolveValue 1 Samples.catalogHyphen "").
Proof.
  refine (non_word_reference_left_verbatim "foo" 1 Samples.catalogHyphen
            Samples.front _ "API_URL" "http://localhost:" "core-api" "main"
            "" _ _ eq_refl _ _ eq_refl eq_refl (or_introl eq_refl)).
  - by_compute.
  - by repeat constructor.
  - by_compute.
  - by repeat constructor.
Defined.

(** C10 as stated fails for a name with a brace in it: the catalog
    holds a service [x{api] that declares [main], and of the reference
    to it only [{x] is left, the rest being read as a reference to
    [api]. *)
Lemma braced_reference_not_verbatim :
  Samples.braced ∈ Config.services Samples.catalogBrace
  ∧ Config.name Samples.braced = "x{api"
  ∧ allChars isWordChar "x{api" = false
  ∧ get (Config.ports Samples.braced) "main" = Some 4000
  ∧ get (envEntries Samples.portal) "X_URL" = Some (refText "x{api" "main")
  ∧ envValue (generateCompose "foo" 1 Samples.catalogBrace)
             "portal" "X_URL"
    = Some "{x4000"
  ∧ envValue (generateCompose "foo" 1 Samples.catalogBrace)
             "portal" "X_URL"
    ≠ Some (refText "x{api" "main").
Proof.
  split; [by repeat constructor|]. split; [reflexivity|].
  split; [reflexivity|]. split; [reflexivity|]. split; [reflexivity|].
  assert (H : envValue (generateCompose "foo" 1 Samples.catalogBrace)
                "portal" "X_URL" = Some "{x4000")
    by (vm_compute; reflexivity).
  split; [exact H|]. rewrite H. vm_compute. discriminate.
Qed.

(** C8. In the generated definition a named volume is mounted under
    its bare name at slot 0 and under [wt-<environment>-<volume>] at any
    other slot; the top-level volume declarations are exactly the
    qualified names of the named volumes of the catalog, each declared
    once however many services mount it. *)
Theorem named_volumes_qualified_and_declared_once
    (worktreeName : string) (slot : Z) (config : Config.MonorepoConfig) :
  (∀ service volumeName mountPath,
     NoDup (map Config.name (Config.services config)) →
     service ∈ Config.services config →
     (volumeName, mountPath) ∈ namedEntries service →
     ∃ svc l,
       get (services (generateCompose worktreeName slot config))
           (Config.name service) = Some svc
       ∧ volumes svc = Some l
       ∧ ((if slot =? 0 then volumeName
           else "wt-" +:+ worktreeName +:+ "-" +:+ volumeName)
            +:+ ":" +:+ mountPath) ∈ l)
  ∧ NoDup (declaredVolumes (generateCompose worktreeName slot config))
  ∧ (∀ declared,
       declared ∈ declaredVolumes (generateCompose worktreeName slot config)
       ↔ ∃ service volumeName mountPath,
           service ∈ Config.services config
           ∧ (volumeName, mountPath) ∈ namedEntries service
           ∧ declared = if slot =? 0 then volumeName
                        else "wt-" +:+ worktreeName +:+ "-" +:+ volumeName).
Proof.
  split; [|split].
  - intros service volumeName mountPath Hnd Hin Hentry.
    destruct (generated_service worktreeName slot config service Hnd Hin)
      as [vols0 Hget].
    destruct (gen_volumes worktreeName slot config service vols0
                (volumeName, mountPath) Hentry) as (l & Hl & Hmem).
    exists (genService worktreeName slot config service vols0).1, l.
    done.
  - rewrite generateCompose_declared, genServices_fold.
    apply fold_step_declared. apply NoDup_nil_2.
  - intros declared.
    rewrite generateCompose_declared, genServices_fold.
    destruct (fold_step_declared worktreeName slot config
                (Config.services config) [] [] NoDup_nil_2)
      as [_ Hmem].
    rewrite Hmem. split.
    + intros [Hnil|(service & [v m] & Hs & He & ->)].
      * by apply elem_of_nil in Hnil.
      * by exists service, v, m.
    + intros (service & v & m & Hs & He & ->). right.
      by exists service, (v, m).
Qed.

Lemma named_volumes_qualified_and_declared_once_witness :
  ∃ svc l,
    get (services (generateCompose "foo" 2 Samples.catalog)) "db" = Some svc
    ∧ volumes svc = Some l
    ∧ "wt-foo-data:/var/lib/postgresql/data" ∈ l.
Proof.
  refine (proj1 (named_volumes_qualified_and_declared_once
                   "foo" 2 Samples.catalog)
            Samples.db "data" "/var/lib/postgresql/data" _ _ _).
  - by_compute.
  - by repeat constructor.
  - by repeat constructor.
Defined.

(** [data] is mounted by [api] and by [db] and declared once; at slot
    0 the names are bare. *)
Example declared_once_for_two_services :
  declaredVolumes (generateCompose "foo" 2 Samples.catalog)
    = ["wt-foo-data"; "wt-foo-backup"]
  ∧ declaredVolumes (generateCompose "foo" 0 Samples.catalog)
    = ["data"; "backup"].
Proof. split; vm_compute; reflexivity. Qed.

End GeneratorSpec.

(** ** Creation, removal and cleanup *)

Module OperationsSpec.
Import Js Operations Vocabulary.

Lemma getSlot_releaseSlot (name : string) (w : World) :
  Ports.getSlot name (Ports.releaseSlot name w) = None.
Proof. apply lookup_delete_eq. Qed.


Lemma existsWorktree_assignSlot (n name : string) (m : Z) (w : World) :
  existsWorktree name (Ports.assignSlot n m w).2 = existsWorktree name w.
Proof.
  unfold Ports.assignSlot, Ports.assignSlotRun.
  destruct (Ports.loadSlots w !! n); [done|].
  by destruct (Ports.scanSlots _ _ _).
Qed.

(** What [createWorktree] does when the directory is there and
    [force] is not given: whenever [assignSlot] returns, the slot of
    the name is released, whether it was assigned by this call or held
    before it. *)
Lemma createWorktree_already_exists (tools : Tools)
    (config : WorktreeConfig) (w : World) (s : Z) (w1 : World) :
  existsWorktree (name config) w = true →
  Ports.assignSlot (name config)
    (Config.max_worktrees (monorepoConfig config)) w = (Ok s, w1) →
  createWorktree tools config false w
    = (false, Ports.releaseSlot (name config) w1)
  ∧ Ports.getSlot (name config)
      (createWorktree tools config false w).2 = None.
Proof.
  intros Hex Hassign. unfold createWorktree. rewrite Hassign.
  assert (Hex1 : existsWorktree (name config) w1 = true).
  { rewrite <- Hex.
    rewrite <- (existsWorktree_assignSlot (name config) (name config)
                  (Config.max_worktrees (monorepoConfig config)) w).
    by rewrite Hassign. }
  rewrite Hex1. split; [done|]. apply getSlot_releaseSlot.
Qed.

(** C3 is not what the code does. [foo] holds slot 1 from an earlier
    run and its directory exists; [createWorktree] without [force]
    fails and leaves [foo] without a slot, its directory still there,
    so that the next new name is given slot 1 again. *)
Theorem createWorktree_existing_loses_held_slot (tools : Tools) :
  Ports.getSlot "foo" Samples.worldHeld = Some 1
  ∧ existsWorktree "foo" Samples.worldHeld = true
  ∧ (createWorktree tools Samples.fooConfig false Samples.worldHeld).1
    = false
  ∧ Ports.getSlot "foo"
      (createWorktree tools Samples.fooConfig false Samples.worldHeld).2
    = None
  ∧ existsWorktree "foo"
      (createWorktree tools Samples.fooConfig false Samples.worldHeld).2
    = true
  ∧ (Ports.assignSlot "baz" 5
       (createWorktree tools Samples.fooConfig false Samples.worldHeld).2).1
    = Ok 1.
Proof. repeat split; vm_compute; reflexivity. Qed.

(** *** [cleanupAll] *)

(** The counter goes up by one for every attempt, whatever
    [removeWorktree] answers. *)
Lemma cleanupLoop_counts_attempts (force : bool) (root dir : string)
    (worktrees : list WorktreeEntry) : ∀ removed w,
  (cleanupLoop force root dir worktrees removed w).1
  = removed
    + Z.of_nat (length (List.filter (attempted root dir) worktrees)).
Proof.
  induction worktrees as [|wt l IH]; intros removed w; simpl; [lia|].
  unfold attempted at 1.
  destruct (String.eqb (normalizePath (wt_path wt)) root); simpl.
  - by rewrite IH.
  - destruct (String.prefix dir (normalizePath (wt_path wt))); simpl.
    + destruct (removeWorktree _ force w) as [ok w']. rewrite IH. lia.
    + by rewrite IH.
Qed.

(** C7 is not what the code does. Of two checkouts the first has
    uncommitted changes: without [force] its removal fails (and the
    loop goes on to remove the second), yet the count reported is 2. *)
Theorem cleanupAll_counts_failed_removal :
  (removeWorktree "a" false Samples.worldDirty).1 = false
  ∧ (cleanupAll false "/repo" "/repo/.worktrees" Samples.listed
       Samples.worldDirty).1 = 2
  ∧ worktreeDirs
      (cleanupAll false "/repo" "/repo/.worktrees" Samples.listed
         Samples.worldDirty).2 = {[ "a" ]}
  ∧ Ports.loadSlots
      (cleanupAll false "/repo" "/repo/.worktrees" Samples.listed
         Samples.worldDirty).2 = {[ "a" := 1 ]}.
Proof. repeat split; vm_compute; reflexivity. Qed.

End OperationsSpec.

(** ** More on the registry *)

Module RegistrySpec.
Import Js Ports Vocabulary Invariants PortsSpec.

Lemma getSlot_assignSlot_ne (name other : string) (maxWorktrees : Z)
    (w : World) :
  other ≠ name →
  getSlot other (assignSlot name maxWorktrees w).2 = getSlot other w.
Proof.
  intros Hne. unfold assignSlot, assignSlotRun, getSlot.
  destruct (loadSlots w !! name); simpl; [done|].
  destruct (scanSlots _ _ _); simpl; [|done].
  rewrite loadSlots_saveSlots. by apply lookup_insert_ne.
Qed.

Lemma getSlot_assignSlot_Ok (name : string) (maxWorktrees s : Z) (w : World) :
  (assignSlot name maxWorktrees w).1 = Ok s →
  getSlot name (assignSlot name maxWorktrees w).2 = Some s.
Proof.
  unfold assignSlot, assignSlotRun, getSlot.
  destruct (loadSlots w !! name) as [s0|] eqn:En; simpl.
  - by intros [= <-].
  - destruct (scanSlots _ _ _); simpl; [|done].
    intros [= <-]. rewrite loadSlots_saveSlots. apply lookup_insert_eq.
Qed.

Lemma assignSlot_Throw_unchanged (name : string) (maxWorktrees : Z)
    (message : string) (w : World) :
  (assignSlot name maxWorktrees w).1 = Throw message →
  (assignSlot name maxWorktrees w).2 = w.
Proof.
  unfold assignSlot, assignSlotRun.
  destruct (loadSlots w !! name); simpl; [done|].
  by destruct (scanSlots _ _ _).
Qed.

(** X1. [assignSlot] touches no entry but that of its own name; when it
    returns a slot, [getSlot] finds that slot under the name; when it
    throws, nothing has changed. *)
Theorem assignSlot_writes_own_entry_only
    (name : string) (maxWorktrees : Z) (w : World) :
  (∀ other, other ≠ name →
     getSlot other (assignSlot name maxWorktrees w).2 = getSlot other w)
  ∧ (∀ s, (assignSlot name maxWorktrees w).1 = Ok s →
       getSlot name (assignSlot name maxWorktrees w).2 = Some s)
  ∧ (∀ message, (assignSlot name maxWorktrees w).1 = Throw message →
       (assignSlot name maxWorktrees w).2 = w).
Proof.
  split; [|split].
  - intros other Hne. by apply getSlot_assignSlot_ne.
  - intros s Hs. by apply getSlot_assignSlot_Ok.
  - intros message Hm. by apply (assignSlot_Throw_unchanged _ _ message).
Qed.

Lemma assignSlot_writes_own_entry_only_witness :
  getSlot "a" (assignSlot "c" 5 Samples.worldGap).2
    = getSlot "a" Samples.worldGap
  ∧ getSlot "c" (assignSlot "c" 5 Samples.worldGap).2 = Some 2
  ∧ (assignSlot "b" 1 Samples.worldFull).2 = Samples.worldFull.
Proof.
  pose proof (assignSlot_writes_own_entry_only "c" 5 Samples.worldGap)
    as (Hother & Hown & _).
  pose proof (assignSlot_writes_own_entry_only "b" 1 Samples.worldFull)
    as (_ & _ & Hthrow).
  split; [apply Hother; discriminate|].
  split; [apply Hown; reflexivity|].
  apply (Hthrow (noSlotsMessage 1)). reflexivity.
Defined.

Lemma registryOk_empty (maxWorktrees : Z) : registryOk maxWorktrees ∅.
Proof. split; intros *; by rewrite lookup_empty. Qed.

Lemma registryOk_delete (maxWorktrees : Z) (slots : gmap string Z)
    (name : string) :
  registryOk maxWorktrees slots → registryOk maxWorktrees (delete name slots).
Proof.
  intros [Hrange Hinj]. split.
  - intros n s [_ Hn]%lookup_delete_Some. eauto.
  - intros n1 n2 s [_ H1]%lookup_delete_Some [_ H2]%lookup_delete_Some.
    eauto.
Qed.

Lemma registryOk_insert (maxWorktrees : Z) (slots : gmap string Z)
    (name : string) (s : Z) :
  registryOk maxWorktrees slots → slots !! name = None →
  1 ≤ s ≤ maxWorktrees → ¬ used slots s →
  registryOk maxWorktrees (<[name := s]> slots).
Proof.
  intros [Hrange Hinj] Hnew Hs Hfree. split.
  - intros n s' [[_ <-]|[_ Hn]]%lookup_insert_Some; eauto.
  - intros n1 n2 s' [[E1 V1]|[Hne1 H1]]%lookup_insert_Some
      [[E2 V2]|[Hne2 H2]]%lookup_insert_Some.
    + congruence.
    + exfalso. apply Hfree. exists n2. congruence.
    + exfalso. apply Hfree. exists n1. congruence.
    + eauto.
Qed.

(** X2. The registry keeps its shape: a missing or unreadable file reads
    as a well-formed (empty) registry, and both [assignSlot] and
    [releaseSlot] turn a well-formed registry into a well-formed one, so
    no two names ever share a slot and no slot leaves 1..maxWorktrees. *)
Theorem registry_invariant (maxWorktrees : Z) :
  (∀ w, slotsFile w = None → registryOk maxWorktrees (loadSlots w))
  ∧ (∀ name w, registryOk maxWorktrees (loadSlots w) →
       registryOk maxWorktrees
         (loadSlots (assignSlot name maxWorktrees w).2))
  ∧ (∀ name w, registryOk maxWorktrees (loadSlots w) →
       registryOk maxWorktrees (loadSlots (releaseSlot name w))).
Proof.
  split; [|split].
  - intros w Hfile. unfold loadSlots. rewrite Hfile. apply registryOk_empty.
  - intros name w Hok. unfold assignSlot, assignSlotRun.
    destruct (loadSlots w !! name) as [s0|] eqn:En; simpl; [done|].
    destruct (scanSlots _ _ _) as [i|] eqn:Hscan; simpl; [|done].
    rewrite loadSlots_saveSlots.
    destruct (scanSlots_Some _ _ _ _ Hscan) as (Hr & Hfree & _).
    apply registryOk_insert; [done|done|lia|]. by rewrite <- used_img.
  - intros name w Hok. unfold releaseSlot. rewrite loadSlots_saveSlots.
    by apply registryOk_delete.
Qed.

Lemma registry_invariant_witness :
  registryOk 5 (loadSlots Samples.worldGap)
  ∧ registryOk 5 (loadSlots (assignSlot "c" 5 Samples.worldGap).2)
  ∧ registryOk 5 (loadSlots (releaseSlot "a" Samples.worldGap)).
Proof.
  assert (Hok : registryOk 5 (loadSlots Samples.worldGap)).
  { change (loadSlots Samples.worldGap)
      with (<["a" := 1]> (<["b" := 3]> (∅ : gmap string Z))).
    apply registryOk_insert; [|reflexivity|lia|].
    - apply registryOk_insert; [apply registryOk_empty|reflexivity|lia|].
      intros [n Hn]. by rewrite lookup_empty in Hn.
    - rewrite <- used_img. apply (bool_decide_unpack _). vm_compute.
      reflexivity. }
  split; [exact Hok|].
  split.
  - exact (proj1 (proj2 (registry_invariant 5)) "c" Samples.worldGap Hok).
  - exact (proj2 (proj2 (registry_invariant 5)) "a" Samples.worldGap Hok).
Defined.

(** X3. Assigning a slot to a new name and releasing it again leaves
    the registry as it was. *)
Theorem assign_then_release_restores
    (name : string) (maxWorktrees : Z) (w : World) :
  loadSlots w !! name = None →
  loadSlots (releaseSlot name (assignSlot name maxWorktrees w).2)
  = loadSlots w.
Proof.
  intros Hnew. unfold releaseSlot, assignSlot, assignSlotRun.
  rewrite Hnew, loadSlots_saveSlots.
  destruct (scanSlots _ _ _) as [i|]; simpl.
  - rewrite loadSlots_saveSlots. by apply delete_insert_id.
  - by apply delete_id.
Qed.

Lemma assign_then_release_restores_witness :
  loadSlots (releaseSlot "c" (assignSlot "c" 5 Samples.worldGap).2)
  = loadSlots Samples.worldGap.
Proof.
  exact (assign_then_release_restores "c" 5 Samples.worldGap eq_refl).
Defined.

(** X4. Lowest-free-first reuse: when [name] holds slot [s], every
    smaller slot is taken and no other name holds [s], releasing [name]
    and assigning a new name (no member of [Object.prototype]) hands
    out exactly [s]. *)
Theorem release_then_assign_reuses_slot
    (name other : string) (maxWorktrees s : Z) (w : World) :
  inheritedKey other = false →
  registryOk maxWorktrees (loadSlots w) →
  loadSlots w !! name = Some s →
  (∀ j, 1 ≤ j < s → used (loadSlots w) j) →
  other ≠ name → loadSlots w !! other = None →
  (assignSlot other maxWorktrees (releaseSlot name w)).1 = Ok s.
Proof.
  intros _ [Hrange Hinj] Hname Hlow Hne Hnew.
  pose proof (Hrange _ _ Hname) as Hs.
  set (w1 := releaseSlot name w).
  assert (Hload : loadSlots w1 = delete name (loadSlots w)) by reflexivity.
  assert (Hfree : ¬ used (loadSlots w1) s).
  { rewrite Hload. intros [n [Hn Hheld]%lookup_delete_Some].
    apply Hn. symmetry. by apply (Hinj n name s). }
  assert (Hnew1 : loadSlots w1 !! other = None).
  { rewrite Hload. by rewrite lookup_delete_ne. }
  unfold assignSlot, assignSlotRun. rewrite Hnew1.
  destruct (scanSlots_finds (map_img (loadSlots w1))
              (Z.to_nat maxWorktrees) 1 s) as [k Hscan].
  { lia. }
  { by rewrite used_img. }
  rewrite Hscan. simpl. f_equal.
  destruct (scanSlots_Some _ _ _ _ Hscan) as (Hkr & Hkfree & Hklow).
  destruct (Z.lt_trichotomy k s) as [Hlt|[->|Hgt]]; [|done|].
  - exfalso. apply Hkfree, used_img. destruct (Hlow k) as [n Hn]; [lia|].
    exists n. rewrite Hload. apply lookup_delete_Some. split; [|done].
    intros ->. rewrite Hname in Hn. injection Hn. lia.
  - exfalso. apply Hfree, used_img, Hklow. lia.
Qed.

Lemma release_then_assign_reuses_slot_witness :
  (assignSlot "wt-3" 1 (releaseSlot "a" Samples.worldFull)).1 = Ok 1.
Proof.
  refine (release_then_assign_reuses_slot "a" "wt-3" 1 1 Samples.worldFull
            eq_refl _ eq_refl _ _ eq_refl).
  - change (loadSlots Samples.worldFull)
      with (<["a" := 1]> (∅ : gmap string Z)).
    apply registryOk_insert; [apply registryOk_empty|reflexivity|lia|].
    intros [n Hn]. by rewrite lookup_empty in Hn.
  - intros j Hj. lia.
  - discriminate.
Defined.

(** With no slot shared, there are as many slots in use as names. *)
Lemma size_img_injective (slots : gmap string Z) :
  (∀ n1 n2 s, slots !! n1 = Some s → slots !! n2 = Some s → n1 = n2) →
  size (map_img slots : gset Z) = size slots.
Proof.
  induction slots as [|n s slots Hn IH] using map_ind; intros Hinj.
  - by rewrite map_img_empty_L, size_empty, map_size_empty.
  - rewrite map_img_insert_notin_L by done.
    rewrite map_size_insert_None by done.
    rewrite size_union, size_singleton.
    + rewrite IH; [done|]. intros n1 n2 s' H1 H2.
      apply (Hinj n1 n2 s'); rewrite lookup_insert_ne; try done.
      * intros <-. congruence.
      * intros <-. congruence.
    + apply disjoint_singleton_l. intros [n' Hn']%elem_of_map_img.
      assert (n = n'); [|congruence].
      apply (Hinj n n' s); [apply lookup_insert_eq|].
      rewrite lookup_insert_ne; [done|]. intros <-. congruence.
Qed.

(** X5. [max_worktrees] is a true capacity: a well-formed registry
    never holds more than [maxWorktrees] names, and [assignSlot] refuses
    a new name (no member of [Object.prototype]) exactly when it holds
    that many. *)
Theorem registry_capacity (name : string) (maxWorktrees : Z) (w : World) :
  inheritedKey name = false →
  registryOk maxWorktrees (loadSlots w) →
  loadSlots w !! name = None →
  (size (loadSlots w) ≤ Z.to_nat maxWorktrees)%nat
  ∧ ((assignSlot name maxWorktrees w).1 = Throw (noSlotsMessage maxWorktrees)
     ↔ size (loadSlots w) = Z.to_nat maxWorktrees).
Proof.
  intros _ [Hrange Hinj] Hnew.
  set (range := list_to_set (seqZ 1 maxWorktrees) : gset Z).
  assert (Hsize_range : size range = Z.to_nat maxWorktrees).
  { unfold range. rewrite size_list_to_set by apply NoDup_seqZ.
    apply length_seqZ. }
  assert (Hin_range : ∀ j, j ∈ range ↔ 1 ≤ j ≤ maxWorktrees).
  { intros j. unfold range. rewrite elem_of_list_to_set, elem_of_seqZ. lia. }
  assert (Hsub : (map_img (loadSlots w) : gset Z) ⊆ range).
  { intros j [n Hn]%elem_of_map_img. apply Hin_range. eauto. }
  pose proof (size_img_injective _ Hinj) as Himg.
  pose proof (subseteq_size _ _ Hsub) as Hle.
  split; [lia|].
  unfold assignSlot, assignSlotRun. rewrite Hnew.
  destruct (scanSlots _ _ _) as [i|] eqn:Hscan; simpl.
  - split; [discriminate|]. intros Hfull. exfalso.
    destruct (scanSlots_Some _ _ _ _ Hscan) as (Hr & Hfree & _).
    apply Hfree.
    rewrite (set_subseteq_size_eq _ _ Hsub) by lia.
    apply Hin_range. lia.
  - split; [|done]. intros _.
    assert (range ⊆ map_img (loadSlots w)).
    { intros j Hj%Hin_range. eapply scanSlots_None; [exact Hscan|]. lia. }
    pose proof (subseteq_size _ _ H). lia.
Qed.

Lemma registry_capacity_witness :
  (size (loadSlots Samples.worldFull) ≤ Z.to_nat 1)%nat
  ∧ ((assignSlot "b" 1 Samples.worldFull).1 = Throw (noSlotsMessage 1)
     ↔ size (loadSlots Samples.worldFull) = Z.to_nat 1).
Proof.
  refine (registry_capacity "b" 1 Samples.worldFull eq_refl _ eq_refl).
  change (loadSlots Samples.worldFull)
    with (<["a" := 1]> (∅ : gmap string Z)).
  apply registryOk_insert; [apply registryOk_empty|reflexivity|lia|].
  intros [n Hn]. by rewrite lookup_empty in Hn.
Defined.

End RegistrySpec.

(** ** More on ports and on the generated definition *)

Module DefinitionSpec.
Import Js Compose Vocabulary Invariants StringFacts RegexSpec RecFacts
  ComposeSpec.

(** X6. On numbers the arithmetic treats exactly, when two base ports
    are less than [offset] apart, their host ports in two different
    slots never coincide; in particular one base port never gives the
    same host port in two slots. *)
Theorem host_ports_do_not_collide (basePort1 basePort2 slot1 slot2 offset : Z) :
  exactPort basePort1 slot1 offset = true →
  exactPort basePort2 slot2 offset = true →
  Z.abs (basePort1 - basePort2) < offset →
  slot1 ≠ slot2 →
  Ports.calculateHostPort basePort1 slot1 offset
  ≠ Ports.calculateHostPort basePort2 slot2 offset.
Proof.
  unfold Ports.calculateHostPort. intros _ _ Hwindow Hslots Heq.
  assert (Hdiff : basePort1 - basePort2 = (slot2 - slot1) * offset) by lia.
  rewrite Hdiff in Hwindow.
  assert (slot2 - slot1 ≤ -1 ∨ 1 ≤ slot2 - slot1) as [Hneg|Hpos] by lia.
  - assert (0 < offset) by lia. nia.
  - assert (0 < offset) by lia. nia.
Qed.

Lemma host_ports_do_not_collide_witness :
  Ports.calculateHostPort 3000 1 1000 ≠ Ports.calculateHostPort 3999 2 1000.
Proof.
  apply host_ports_do_not_collide;
    [reflexivity | reflexivity | reflexivity | discriminate].
Defined.

(** *** The port table *)

Lemma flat_map_pointwise {A B C : Type} (h : B → C) (F : A → list C)
    (G : A → list B) (l : list A) :
  (∀ x, x ∈ l → F x = map h (G x)) →
  flat_map F l = map h (flat_map G l).
Proof.
  induction l as [|x l IH]; intros Hall; [done|].
  simpl. rewrite map_app. f_equal.
  - apply Hall. by left.
  - apply IH. intros y Hy. apply Hall. by right.
Qed.

Lemma portsOf_genService (worktreeName : string) (slot : Z)
    (config : Config.MonorepoConfig) (service : Config.ServiceConfig)
    (vols : Rec unit) :
  portsOf (genService worktreeName slot config service vols).1
  = map (fun entry : string * Z =>
           String_ (Ports.calculateHostPort entry.2 slot (Config.offset config))
             +:+ ":" +:+ String_ entry.2)
        (Config.ports service).
Proof.
  unfold genService, portsOf.
  destruct (genVolumes worktreeName slot service vols) as [sv vols'].
  simpl. unfold genPorts.
  destruct (Config.ports service) as [|[k b] l]; [done|]. simpl.
  f_equal. apply map_ext. by intros [k' b'].
Qed.

(** X7. The port table of [getServicePorts] and the generated
    definition agree: the [host:container] pairs of the generated
    services, taken in catalog order, are the rows of the table, the
    container side being the base port and the host side the base port
    moved by [slot * offset]. *)
Theorem port_table_matches_definition
    (worktreeName : string) (slot : Z) (config : Config.MonorepoConfig) :
  NoDup (map Config.name (Config.services config)) →
  flat_map
    (fun service =>
       match get (services (generateCompose worktreeName slot config))
                 (Config.name service) with
       | Some svc => portsOf svc
       | None => []
       end)
    (Config.services config)
  = map portPair (Config.getServicePorts config slot)
  ∧ Forall (fun p => Config.sp_host p
                     = Ports.calculateHostPort (Config.sp_base p) slot
                         (Config.offset config))
           (Config.getServicePorts config slot).
Proof.
  intros Hnd. split.
  - unfold Config.getServicePorts. apply flat_map_pointwise.
    intros service Hin.
    destruct (generated_service worktreeName slot config service Hnd Hin)
      as [vols0 ->].
    rewrite portsOf_genService, map_map. apply map_ext. by intros [k b].
  - unfold Config.getServicePorts. apply Forall_forall.
    intros p Hp%list_elem_of_In.
    apply in_flat_map in Hp as [service [_ Hp]].
    apply in_map_iff in Hp as [[k b] [<- _]]. reflexivity.
Qed.

Lemma port_table_matches_definition_witness :
  flat_map
    (fun service =>
       match get (services (generateCompose "foo" 2 Samples.catalog))
                 (Config.name service) with
       | Some svc => portsOf svc
       | None => []
       end)
    (Config.services Samples.catalog)
  = map portPair (Config.getServicePorts Samples.catalog 2)
  ∧ Forall (fun p => Config.sp_host p
                     = Ports.calculateHostPort (Config.sp_base p) 2
                         (Config.offset Samples.catalog))
           (Config.getServicePorts Samples.catalog 2).
Proof.
  apply port_table_matches_definition.
  apply (bool_decide_unpack _). vm_compute. reflexivity.
Defined.

(** *** Names of checkouts *)

Lemma lastSegment_segment (name : string) : ∀ cur,
  isSegment name = true →
  Config.lastSegment cur name = String.rev_app cur name.
Proof.
  induction name as [|c name IH]; intros cur; [done|].
  unfold isSegment. cbn [allChars]. intros [Hc Hname]%andb_true_iff.
  cbn [Config.lastSegment]. unfold notSeparator in Hc.
  destruct (Ascii.eqb c "/" || Ascii.eqb c "\")%bool; [done|].
  by rewrite IH.
Qed.

Lemma lastSegment_after_separator (dir rest : string) (sep : ascii) :
  (Ascii.eqb sep "/" || Ascii.eqb sep "\")%bool = true → ∀ cur,
  Config.lastSegment cur (dir +:+ String sep rest)
  = Config.lastSegment "" rest.
Proof.
  intros Hsep. induction dir as [|c dir IH]; intros cur; simpl.
  - by rewrite Hsep.
  - destruct (Ascii.eqb c "/" || Ascii.eqb c "\")%bool; apply IH.
Qed.

(** X8. [getWorktreeName] gives back the last segment of a path: for a
    name without separator, the name itself, and the name again once a
    directory and a slash or a backslash are put before it. *)
Theorem getWorktreeName_of_joined_path (dir name : string) (sep : ascii) :
  isSegment name = true →
  sep = "/"%char ∨ sep = "\"%char →
  Config.getWorktreeName name = name
  ∧ Config.getWorktreeName (dir +:+ String sep name) = name.
Proof.
  intros Hname Hsep. unfold Config.getWorktreeName.
  rewrite lastSegment_after_separator by by destruct Hsep as [-> | ->].
  by rewrite lastSegment_segment.
Qed.

Lemma getWorktreeName_of_joined_path_witness :
  Config.getWorktreeName "feature-x" = "feature-x"
  ∧ Config.getWorktreeName ("C:\repo\.worktrees" +:+ String "\" "feature-x")
    = "feature-x".
Proof.
  apply getWorktreeName_of_joined_path; [reflexivity | by right].
Defined.

(** *** The services of the generated definition *)

Lemma keys_set_new {V : Type} (o : Rec V) (k : string) (v : V) :
  k ∉ keys o → set o k v = o ++ [(k, v)].
Proof.
  unfold keys. induction o as [|[k0 v0] o IH]; simpl; [done|].
  rewrite not_elem_of_cons. intros [Hne Hk].
  destruct (String.eqb_spec k0 k) as [->|_]; [done|]. by rewrite IH.
Qed.

Lemma setAll_distinct {V X : Type} (g : X → V) (entries : Rec X) :
  ∀ o, NoDup (keys o ++ keys entries) →
  setAll id g entries o = o ++ map (fun entry => (entry.1, g entry.2)) entries.
Proof.
  unfold keys. induction entries as [|[k x] entries IH]; intros o Hnd; simpl.
  - by rewrite List.app_nil_r.
  - fold (setAll id g entries (set o (id k) (g x))).
    simpl in Hnd. apply NoDup_app in Hnd as (Ho & Hdisj & Hent).
    apply NoDup_cons in Hent as [Hk Hent].
    rewrite keys_set_new by (intros Hin; apply (Hdisj k Hin); by left).
    rewrite IH.
    + by rewrite <- List.app_assoc.
    + unfold keys. rewrite map_app. simpl. rewrite <- List.app_assoc. simpl.
      apply NoDup_app. split; [done|]. split; [|by apply NoDup_cons].
      intros y Hy Hy'. by apply (Hdisj y).
Qed.

Section Generated.
Variable worktreeName : string.
Variable slot : Z.
Variable config : Config.MonorepoConfig.

Let gen := genService worktreeName slot config.

Let step (acc : Rec Service * Rec unit) (service : Config.ServiceConfig)
    : Rec Service * Rec unit :=
  let '(svcs, vols) := acc in
  let '(svc, vols') := gen service vols in
  (set svcs (Config.name service) svc, vols').

Lemma fold_step_keys (l : list Config.ServiceConfig) : ∀ svcs vols,
  NoDup (keys svcs ++ map Config.name l) →
  keys (fold_left step l (svcs, vols)).1 = keys svcs ++ map Config.name l.
Proof.
  induction l as [|service l IH]; intros svcs vols Hnd; simpl.
  - by rewrite List.app_nil_r.
  - destruct (gen service vols) as [svc vols'].
    apply NoDup_app in Hnd as (Hs & Hdisj & Hl).
    apply NoDup_cons in Hl as [Hname Hl].
    assert (Hnew : Config.name service ∉ keys svcs).
    { intros Hin. apply (Hdisj _ Hin). by left. }
    rewrite IH; rewrite (keys_set_new svcs _ svc Hnew); unfold keys;
      rewrite map_app; simpl; rewrite <- List.app_assoc; [done|].
    simpl. apply NoDup_app. split; [done|]. split; [|by apply NoDup_cons].
    intros y Hy Hy'. by apply (Hdisj y).
Qed.

Lemma gen_fields (service : Config.ServiceConfig) (vols : Rec unit) :
  container_name (gen service vols).1
    = prefix worktreeName slot config +:+ "-" +:+ Config.name service
  ∧ networks (gen service vols).1 = [networkName worktreeName slot config]
  ∧ image (gen service vols).1
    = (if truthy (Config.image service) then Config.image service else None)
  ∧ build (gen service vols).1
    = (if truthy (Config.image service) then None
       else if truthy (Config.build_path service) then
         Some (mkBuild ("./" +:+ orString (Config.build_path service) "")
                       (orString (Config.dockerfile service) "Dockerfile"))
       else None).
Proof.
  unfold gen, genService.
  by destruct (genVolumes worktreeName slot service vols).
Qed.

End Generated.

(** X9. With distinct service names, none of them a string of digits
    (such keys an object lists first) or a member of
    [Object.prototype], the generated definition has one service per
    catalog entry, under the entry's name and in catalog order. *)
Theorem generated_services_follow_catalog
    (worktreeName : string) (slot : Z) (config : Config.MonorepoConfig) :
  forallb (fun service => plainKey (Config.name service))
          (Config.services config) = true →
  NoDup (map Config.name (Config.services config)) →
  keys (services (generateCompose worktreeName slot config))
  = map Config.name (Config.services config).
Proof.
  intros _ Hnd. rewrite generateCompose_services, genServices_fold.
  by rewrite (fold_step_keys worktreeName slot config _ [] []).
Qed.

Lemma generated_services_follow_catalog_witness :
  keys (services (generateCompose "foo" 2 Samples.catalog))
  = ["api"; "db"; "web"].
Proof.
  apply (generated_services_follow_catalog "foo" 2 Samples.catalog);
    [reflexivity|].
  apply (bool_decide_unpack _). vm_compute. reflexivity.
Defined.

(** X10. Every generated service is named [<namespace>-<service>] and
    attached to the one network the file declares, a bridge named after
    the namespace: the project name at slot 0, [wt-<environment>] at any
    other slot. *)
Theorem services_share_the_declared_network
    (worktreeName : string) (slot : Z) (config : Config.MonorepoConfig)
    (service : Config.ServiceConfig) :
  NoDup (map Config.name (Config.services config)) →
  service ∈ Config.services config →
  ∃ svc,
    get (services (generateCompose worktreeName slot config))
        (Config.name service) = Some svc
    ∧ container_name svc
      = (if slot =? 0 then Config.project_name config
         else "wt-" +:+ worktreeName) +:+ "-" +:+ Config.name service
    ∧ networks svc
      = [if slot =? 0 then Config.project_name config
         else "wt-" +:+ worktreeName]
    ∧ top_networks (generateCompose worktreeName slot config)
      = [(if slot =? 0 then Config.project_name config
          else "wt-" +:+ worktreeName, mkNetwork "bridge")].
Proof.
  intros Hnd Hin.
  destruct (generated_service worktreeName slot config service Hnd Hin)
    as [vols0 Hget].
  eexists. split; [exact Hget|].
  destruct (gen_fields worktreeName slot config service vols0)
    as (Hname & Hnet & _ & _).
  split; [exact Hname|]. split; [exact Hnet|].
  unfold generateCompose.
  by destruct (genServices worktreeName slot config).
Qed.

Lemma services_share_the_declared_network_witness :
  ∃ svc,
    get (services (generateCompose "foo" 2 Samples.catalog)) "db" = Some svc
    ∧ container_name svc = "wt-foo-db"
    ∧ networks svc = ["wt-foo"]
    ∧ top_networks (generateCompose "foo" 2 Samples.catalog)
      = [("wt-foo", mkNetwork "bridge")].
Proof.
  refine (services_share_the_declared_network "foo" 2 Samples.catalog
            Samples.db _ _).
  - apply (bool_decide_unpack _). vm_compute. reflexivity.
  - by repeat constructor.
Defined.

(** X11. A generated service never has both an image and a build: a
    non-empty [image] wins and is copied; without it a non-empty [path]
    gives a build of [./<path>] whose build file is the catalog's or, when
    that is missing or empty, [Dockerfile]; with neither, the service has
    neither. *)
Theorem image_and_build_exclusive
    (worktreeName : string) (slot : Z) (config : Config.MonorepoConfig)
    (service : Config.ServiceConfig) :
  NoDup (map Config.name (Config.services config)) →
  service ∈ Config.services config →
  ∃ svc,
    get (services (generateCompose worktreeName slot config))
        (Config.name service) = Some svc
    ∧ (image svc = None ∨ build svc = None)
    ∧ (truthy (Config.image service) = true →
         image svc = Config.image service ∧ build svc = None)
    ∧ (truthy (Config.image service) = false →
       ∀ c p, Config.build_path service = Some (String c p) →
         image svc = None
         ∧ build svc
           = Some (mkBuild ("./" +:+ String c p)
                     (orString (Config.dockerfile service) "Dockerfile")))
    ∧ (truthy (Config.image service) = false →
       truthy (Config.build_path service) = false →
         image svc = None ∧ build svc = None).
Proof.
  intros Hnd Hin.
  destruct (generated_service worktreeName slot config service Hnd Hin)
    as [vols0 Hget].
  eexists. split; [exact Hget|].
  destruct (gen_fields worktreeName slot config service vols0)
    as (_ & _ & Himg & Hbuild).
  rewrite Himg, Hbuild.
  destruct (truthy (Config.image service)) eqn:Hi.
  - split; [by right|]. split; [done|]. split; [done|done].
  - split; [by left|]. split; [done|]. split.
    + intros _ c p Hp. rewrite Hp. done.
    + intros _ Hp. by rewrite Hp.
Qed.

Lemma image_and_build_exclusive_witness :
  ∃ svc,
    get (services (generateCompose "foo" 2 Samples.catalog)) "api" = Some svc
    ∧ image svc = None
    ∧ build svc = Some (mkBuild "./services/api" "Dockerfile").
Proof.
  destruct (image_and_build_exclusive "foo" 2 Samples.catalog Samples.api)
    as (svc & Hget & _ & _ & Hbuild & _).
  - apply (bool_decide_unpack _). vm_compute. reflexivity.
  - by repeat constructor.
  - exists svc. split; [exact Hget|].
    exact (Hbuild eq_refl "s"%char "ervices/api" eq_refl).
Defined.

(** *** Volumes and environment *)

(** X12. The generated file has a top-level [volumes] section exactly
    when some service of the catalog mounts a named volume. *)
Theorem top_volumes_only_when_named
    (worktreeName : string) (slot : Z) (config : Config.MonorepoConfig) :
  top_volumes (generateCompose worktreeName slot config) = None
  ↔ ∀ service, service ∈ Config.services config → namedEntries service = [].
Proof.
  destruct (fold_step_declared worktreeName slot config
              (Config.services config) [] [] NoDup_nil_2) as [_ Hmem].
  rewrite <- genServices_fold in Hmem.
  assert (Hnone : top_volumes (generateCompose worktreeName slot config) = None
                  ↔ keys (genServices worktreeName slot config).2 = []).
  { unfold generateCompose.
    by destruct (genServices worktreeName slot config) as [svcs [|v vols]]. }
  rewrite Hnone. split.
  - intros Hempty service Hin.
    destruct (namedEntries service) as [|entry entries] eqn:He; [done|].
    exfalso.
    assert (Hdecl : qualifiedName worktreeName slot entry.1
                      ∈ keys (genServices worktreeName slot config).2).
    { apply Hmem. right. exists service, entry. rewrite He.
      split; [done|]. split; [by left|done]. }
    rewrite Hempty in Hdecl. by apply elem_of_nil in Hdecl.
  - intros Hall.
    destruct (keys (genServices worktreeName slot config).2) as [|k l] eqn:Hk;
      [done|].
    exfalso.
    assert (Hin : k ∈ k :: l) by by left.
    apply Hmem in Hin as [Hnil|(service & entry & Hs & He & _)].
    + by apply elem_of_nil in Hnil.
    + rewrite (Hall service Hs) in He. by apply elem_of_nil in He.
Qed.

Lemma top_volumes_only_when_named_witness :
  top_volumes (generateCompose "foo" 1 Scenarios.catalogPlain) = None.
Proof.
  apply (proj2 (top_volumes_only_when_named "foo" 1 Scenarios.catalogPlain)).
  intros service Hin. apply list_elem_of_singleton in Hin as ->. reflexivity.
Defined.

(** X13. With distinct keys, the environment of a generated service
    lists the keys of the catalog entry in their order, each with its
    value after replacement of the references. *)
Theorem environment_keeps_keys_and_order
    (worktreeName : string) (slot : Z) (config : Config.MonorepoConfig)
    (service : Config.ServiceConfig) (entries : Rec string) :
  NoDup (map Config.name (Config.services config)) →
  service ∈ Config.services config →
  Config.env service = Some entries →
  NoDup (keys entries) →
  ∃ svc,
    get (services (generateCompose worktreeName slot config))
        (Config.name service) = Some svc
    ∧ environment svc
      = Some (map (fun entry => (entry.1, resolveValue slot config entry.2))
                  entries).
Proof.
  intros Hnd Hin Henv Hkeys.
  destruct (generated_service worktreeName slot config service Hnd Hin)
    as [vols0 Hget].
  eexists. split; [exact Hget|].
  rewrite gen_environment. unfold genEnvironment. rewrite Henv. f_equal.
  exact (setAll_distinct (resolveValue slot config) entries [] Hkeys).
Qed.

Lemma environment_keeps_keys_and_order_witness :
  ∃ svc,
    get (services (generateCompose "foo" 2 Samples.catalog)) "web" = Some svc
    ∧ environment svc
      = Some (map (fun entry => (entry.1,
                                 resolveValue 2 Samples.catalog entry.2))
                  (envEntries Samples.web)).
Proof.
  refine (environment_keeps_keys_and_order "foo" 2 Samples.catalog
            Samples.web _ _ _ eq_refl _).
  - apply (bool_decide_unpack _). vm_compute. reflexivity.
  - by repeat constructor.
  - apply (bool_decide_unpack _). vm_compute. reflexivity.
Defined.

(** X14. A value without an opening brace goes into the generated
    environment unchanged, in every slot. *)
Theorem plain_value_copied
    (worktreeName : string) (slot : Z) (config : Config.MonorepoConfig)
    (service : Config.ServiceConfig) (entries : Rec string)
    (key value : string) :
  NoDup (map Config.name (Config.services config)) →
  service ∈ Config.services config →
  Config.env service = Some entries →
  NoDup (keys entries) → (key, value) ∈ entries →
  allChars notOpen value = true →
  envValue (generateCompose worktreeName slot config)
           (Config.name service) key
  = Some value.
Proof.
  intros Hnd Hin Henv Hkeys Hentry Hplain.
  destruct (generated_environment worktreeName slot config service
              entries key value Hnd Hin Henv Hkeys Hentry)
    as (svc & e & Hsvc & He & Hget).
  unfold envValue. rewrite Hsvc, He, Hget. f_equal.
  unfold resolveValue.
  pose proof (replaceRefs_plain (resolveRef slot config) value "" Hplain)
    as Hcopy.
  rewrite replaceRefs_nil in Hcopy. by rewrite !app_nil_r in Hcopy.
Qed.

Lemma plain_value_copied_witness :
  envValue (generateCompose "foo" 1 Scenarios.catalogPlain) "worker" "NODE_ENV"
  = Some "development".
Proof.
  refine (plain_value_copied "foo" 1 Scenarios.catalogPlain Scenarios.worker
            _ "NODE_ENV" "development" _ _ eq_refl _ _ eq_refl).
  - apply (bool_decide_unpack _). vm_compute. reflexivity.
  - by repeat constructor.
  - apply (bool_decide_unpack _). vm_compute. reflexivity.
  - by repeat constructor.
Defined.

(** X27. A value made of plain text and of references, any number of
    them, is rewritten piece by piece: the text stays, every reference
    with word names becomes what the lookup of its service and port
    gives, every other reference stays as written. *)
Theorem value_rewritten_piece_by_piece
    (worktreeName : string) (slot : Z) (config : Config.MonorepoConfig)
    (service : Config.ServiceConfig) (entries : Rec string)
    (key : string) (pieces : list Piece) :
  NoDup (map Config.name (Config.services config)) →
  service ∈ Config.services config →
  Config.env service = Some entries →
  NoDup (keys entries) →
  (key, joinPieces pieceSource pieces) ∈ entries →
  forallb pieceOk pieces = true →
  envValue (generateCompose worktreeName slot config)
           (Config.name service) key
  = Some (joinPieces (pieceResult (resolveRef slot config)) pieces).
Proof.
  intros Hnd Hin Henv Hkeys Hentry Hpieces.
  destruct (generated_environment worktreeName slot config service
              entries key _ Hnd Hin Henv Hkeys Hentry)
    as (svc & e & Hsvc & He & Hget).
  unfold envValue. rewrite Hsvc, He, Hget. f_equal.
  unfold resolveValue. by apply replaceRefs_pieces.
Qed.

Lemma value_rewritten_piece_by_piece_witness :
  envValue (generateCompose "foo" 2 Samples.catalog) "web" "API_URL"
  = Some "http://localhost:5000/v1?db=7432&dbg=11229&again=5000".
Proof.
  refine (value_rewritten_piece_by_piece "foo" 2 Samples.catalog
            Samples.web _ "API_URL" Scenarios.apiUrlPieces
            _ _ eq_refl _ _ eq_refl).
  - apply (bool_decide_unpack _). vm_compute. reflexivity.
  - by repeat constructor.
  - apply (bool_decide_unpack _). vm_compute. reflexivity.
  - by repeat constructor.
Defined.

(** *** Two environments side by side *)

(** Two names followed by a hyphen at the head of one and the same
    text: they are the same name, or one of them with its hyphen begins
    the other. *)
Lemma prefix_cons (c : ascii) (a b : string) :
  String.prefix (String c a) (String c b) = String.prefix a b.
Proof. simpl. by destruct (Ascii.ascii_dec c c). Qed.

Lemma hyphen_after_name (name1 name2 rest1 rest2 : string) :
  name1 +:+ "-" +:+ rest1 = name2 +:+ "-" +:+ rest2 →
  name1 = name2
  ∨ String.prefix (name1 +:+ "-") name2 = true
  ∨ String.prefix (name2 +:+ "-") name1 = true.
Proof.
  revert name2.
  induction name1 as [|c name1 IH]; intros [|d name2] Heq; simpl in Heq;
    cbn [String.append].
  - by left.
  - injection Heq as <- _. right. left. rewrite prefix_cons.
    by destruct name2.
  - injection Heq as -> _. right. right. rewrite prefix_cons.
    by destruct name1.
  - injection Heq as -> Heq. rewrite !prefix_cons.
    destruct (IH name2 Heq) as [->|[H|H]]; auto.
Qed.

(** X15. Two environments, neither in slot 0, whose names differ and
    of which neither begins with the other followed by a hyphen (so any
    two names without hyphen, and any two generated names [wt-xxxx]),
    share nothing the container engine knows by name: not the network,
    not a container (whatever the two services are called), not a named
    volume (whatever the two volumes are called). *)
Theorem worktree_names_keep_environments_apart
    (name1 name2 : string) (slot1 slot2 : Z) (config : Config.MonorepoConfig)
    (service1 service2 volume1 volume2 : string) :
  name1 ≠ name2 →
  String.prefix (name1 +:+ "-") name2 = false →
  String.prefix (name2 +:+ "-") name1 = false →
  slot1 ≠ 0 → slot2 ≠ 0 →
  networkName name1 slot1 config ≠ networkName name2 slot2 config
  ∧ prefix name1 slot1 config +:+ "-" +:+ service1
    ≠ prefix name2 slot2 config +:+ "-" +:+ service2
  ∧ qualifiedName name1 slot1 volume1
    ≠ qualifiedName name2 slot2 volume2.
Proof.
  intros Hne Hp1 Hp2 H1 H2.
  unfold networkName, prefix, qualifiedName, isMain.
  apply Z.eqb_neq in H1, H2. rewrite H1, H2.
  split; [|split].
  - intros Heq. simpl in Heq. by injection Heq.
  - intros Heq. rewrite !app_assoc in Heq. simpl in Heq.
    injection Heq as Heq.
    destruct (hyphen_after_name _ _ _ _ Heq) as [?|[?|?]]; congruence.
  - intros Heq. simpl in Heq. injection Heq as Heq.
    destruct (hyphen_after_name _ _ _ _ Heq) as [?|[?|?]]; congruence.
Qed.

Lemma worktree_names_keep_environments_apart_witness :
  networkName "wt-ab12" 1 Samples.catalog
    ≠ networkName "wt-cd34" 2 Samples.catalog
  ∧ prefix "wt-ab12" 1 Samples.catalog +:+ "-" +:+ "cd34-api"
    ≠ prefix "wt-cd34" 2 Samples.catalog +:+ "-" +:+ "api"
  ∧ qualifiedName "wt-ab12" 1 "cd34-data" ≠ qualifiedName "wt-cd34" 2 "data".
Proof.
  apply worktree_names_keep_environments_apart;
    reflexivity || discriminate.
Defined.

End DefinitionSpec.

(** ** The life of a checkout *)

Module LifecycleSpec.
Import Js Operations Vocabulary Invariants PortsSpec OperationsSpec.

(** [assignSlot] and [releaseSlot] write the registry file and nothing
    else. *)
Lemma assignSlot_world (name : string) (maxWorktrees : Z) (w : World) :
  ∃ file, (Ports.assignSlot name maxWorktrees w).2 = withSlotsFile file w.
Proof.
  unfold Ports.assignSlot, Ports.assignSlotRun.
  destruct (Ports.loadSlots w !! name).
  - exists (slotsFile w). by destruct w.
  - destruct (Ports.scanSlots _ _ _); simpl; [by eexists|].
    exists (slotsFile w). by destruct w.
Qed.



(** X16. With every slot taken and a name the registry does not hold
    (no member of [Object.prototype]), [createWorktree] gives up at
    once: it returns false and leaves the registry and the checkouts as
    they were. *)
Theorem createWorktree_registry_full (tools : Tools)
    (config : WorktreeConfig) (force : bool) (w : World) :
  inheritedKey (name config) = false →
  Ports.loadSlots w !! name config = None →
  (∀ j, 1 ≤ j ≤ Config.max_worktrees (monorepoConfig config) →
     used (Ports.loadSlots w) j) →
  createWorktree tools config force w = (false, w).
Proof.
  intros _ Hnew Hfull. unfold createWorktree, Ports.assignSlot,
    Ports.assignSlotRun. rewrite Hnew.
  assert (Hscan : Ports.scanSlots (map_img (Ports.loadSlots w)) 1
                    (Z.to_nat (Config.max_worktrees (monorepoConfig config)))
                  = None).
  { apply scanSlots_None. intros j Hj. apply used_img, Hfull. lia. }
  by rewrite Hscan.
Qed.

Lemma createWorktree_registry_full_witness :
  createWorktree Scenarios.toolsOk Scenarios.tightConfig false
    Samples.worldFull
  = (false, Samples.worldFull).
Proof.
  refine (createWorktree_registry_full Scenarios.toolsOk
            Scenarios.tightConfig false Samples.worldFull eq_refl eq_refl _).
  intros j Hj. assert (j = 1) as -> by (simpl in Hj; lia).
  exists "a". reflexivity.
Defined.



Lemma loadSlots_gitRemove (n : string) (w : World) :
  Ports.loadSlots (Git.removeWorktree n w) = Ports.loadSlots w.
Proof. reflexivity. Qed.

Lemma loadSlots_release_after_assign (name : string) (maxWorktrees : Z)
    (w : World) :
  Ports.loadSlots w !! name = None →
  delete name (Ports.loadSlots (Ports.assignSlot name maxWorktrees w).2)
  = Ports.loadSlots w.
Proof.
  intros Hnew. unfold Ports.assignSlot, Ports.assignSlotRun. rewrite Hnew.
  destruct (Ports.scanSlots _ _ _); simpl.
  - rewrite loadSlots_saveSlots. by apply delete_insert_id.
  - by apply delete_id.
Qed.



(** X19. [removeWorktree] changes nothing in two cases only: the
    directory is missing (it answers true, and a slot still registered
    for the name stays registered), or the checkout has uncommitted
    changes and [force] is not given (it answers false). That refusal is
    the only way it answers false. *)
Theorem removeWorktree_refusal (name : string) (force : bool) (w : World) :
  ((removeWorktree name force w).1 = false
   ↔ existsWorktree name w = true ∧ force = false
     ∧ Git.hasUncommittedChanges name w = true)
  ∧ ((removeWorktree name force w).1 = false →
       (removeWorktree name force w).2 = w)
  ∧ (existsWorktree name w = false →
       removeWorktree name force w = (true, w)).
Proof.
  unfold removeWorktree.
  destruct (existsWorktree name w), force,
    (Git.hasUncommittedChanges name w); simpl; intuition congruence.
Qed.

Lemma removeWorktree_refusal_witness :
  (removeWorktree "a" false Samples.worldDirty).2 = Samples.worldDirty
  ∧ removeWorktree "gone" true Samples.worldDirty
    = (true, Samples.worldDirty).
Proof.
  pose proof (removeWorktree_refusal "a" false Samples.worldDirty)
    as (_ & Hsame & _).
  pose proof (removeWorktree_refusal "gone" true Samples.worldDirty)
    as (_ & _ & Hmissing).
  split; [apply Hsame; reflexivity | apply Hmissing; reflexivity].
Defined.



(** X21. Round trip, for a name that is one path segment: creating a
    checkout for a new name in a free place and then removing it with
    [force] brings the registry and the set of checkouts back to what
    they were. *)
Theorem create_then_remove_restores (tools : Tools)
    (config : WorktreeConfig) (w w1 : World) :
  isName (name config) = true →
  Ports.loadSlots w !! name config = None →
  existsWorktree (name config) w = false →
  createWorktree tools config false w = (true, w1) →
  (removeWorktree (name config) true w1).1 = true
  ∧ Ports.loadSlots (removeWorktree (name config) true w1).2
    = Ports.loadSlots w
  ∧ worktreeDirs (removeWorktree (name config) true w1).2 = worktreeDirs w.
Proof.
  intros _ Hnew Hex. unfold createWorktree.
  pose proof (loadSlots_release_after_assign (name config)
                (Config.max_worktrees (monorepoConfig config)) w Hnew)
    as Hback.
  destruct (assignSlot_world (name config)
              (Config.max_worktrees (monorepoConfig config)) w)
    as [file Hworld].
  destruct (Ports.assignSlot _ _ w) as [[s|message] w0]; [|discriminate].
  simpl in *. subst w0.
  assert (Hex0 : existsWorktree (name config) (withSlotsFile file w) = false)
    by exact Hex.
  rewrite Hex0. unfold createCheckout.
  destruct (gitCreateSucceeds tools); [|discriminate].
  intros [= <-].
  assert (Hthere : existsWorktree (name config)
            (if composeWriteSucceeds tools
             then writeCompose (name config)
                    (Git.createWorktree (name config) (withSlotsFile file w))
             else Git.createWorktree (name config) (withSlotsFile file w))
          = true).
  { unfold existsWorktree.
    destruct (composeWriteSucceeds tools); apply bool_decide_eq_true; simpl;
      set_solver. }
  unfold removeWorktree. rewrite Hthere. simpl.
  split; [done|]. split.
  - unfold Ports.releaseSlot. rewrite loadSlots_saveSlots, loadSlots_gitRemove.
    by destruct (composeWriteSucceeds tools).
  - apply bool_decide_eq_false in Hex.
    destruct (composeWriteSucceeds tools); simpl; set_solver.
Qed.

Lemma create_then_remove_restores_witness :
  (removeWorktree "wt-1" true
     (createWorktree Scenarios.toolsOk Scenarios.workerConfig false
        Scenarios.worldEmpty).2).1 = true
  ∧ Ports.loadSlots
      (removeWorktree "wt-1" true
         (createWorktree Scenarios.toolsOk Scenarios.workerConfig false
            Scenarios.worldEmpty).2).2
    = Ports.loadSlots Scenarios.worldEmpty
  ∧ worktreeDirs
      (removeWorktree "wt-1" true
         (createWorktree Scenarios.toolsOk Scenarios.workerConfig false
            Scenarios.worldEmpty).2).2
    = worktreeDirs Scenarios.worldEmpty.
Proof.
  exact (create_then_remove_restores Scenarios.toolsOk Scenarios.workerConfig
           Scenarios.worldEmpty _ eq_refl eq_refl eq_refl eq_refl).
Defined.

(** *** Cleanup *)










End LifecycleSpec.

(** ** The development context *)

Module ContextSpec.
Import Js Operations Context Vocabulary Invariants PortsSpec OperationsSpec
  LifecycleSpec.

(** *** Where the process stands *)

(** One character of the comparison of [/.worktrees] with a text [t],
    and of [/.worktrees/] with [t] followed by [/.worktrees/]. *)
Ltac border_step t :=
  let c := fresh "c" in
  destruct t as [|c t];
  [ first [ discriminate | intros _; reflexivity ]
  | simpl; destruct (Ascii.eqb _ c); [|intros _; reflexivity] ].

(** An occurrence of [/.worktrees/] cannot begin inside a text in which
    [/.worktrees] begins nowhere, even if [/.worktrees/] follows. *)
Lemma stripPrefix_border (t x : string) :
  t ≠ "" →
  Compose.stripPrefix "/.worktrees" t = None →
  Compose.stripPrefix "/.worktrees/" (t +:+ "/.worktrees/" +:+ x) = None.
Proof.
  intros Hne. destruct t as [|c0 t]; [done|]. clear Hne.
  simpl. destruct (Ascii.eqb _ c0); [|done].
  do 10 border_step t.
  discriminate.
Qed.

Lemma splitFirst_None_cons (needle : string) (c : ascii) (r : string) :
  splitFirst needle (String c r) = None →
  Compose.stripPrefix needle (String c r) = None
  ∧ splitFirst needle r = None.
Proof.
  cbn [splitFirst].
  destruct (Compose.stripPrefix needle (String c r)); [discriminate|].
  by destruct (splitFirst needle r) as [[before rest]|].
Qed.

Lemma splitFirst_worktrees (root x : string) :
  splitFirst "/.worktrees" root = None →
  splitFirst "/.worktrees/" (root +:+ "/.worktrees/" +:+ x) = Some (root, x).
Proof.
  induction root as [|c r IH]; intros Hnone; [reflexivity|].
  destruct (splitFirst_None_cons _ _ _ Hnone) as [Hhere Hlater].
  change (String c r +:+ "/.worktrees/" +:+ x)
    with (String c (r +:+ "/.worktrees/" +:+ x)).
  cbn [splitFirst].
  change (String c (r +:+ "/.worktrees/" +:+ x))
    with (String c r +:+ "/.worktrees/" +:+ x).
  rewrite stripPrefix_border by done.
  by rewrite (IH Hlater).
Qed.

Lemma firstSegment_segment (name rest : string) :
  allChars (fun c => negb (Ascii.eqb c "/")) name = true →
  rest = "" ∨ (∃ rest', rest = String "/" rest') →
  firstSegment (name +:+ rest) = name.
Proof.
  intros Hname Hrest. induction name as [|c name IH]; simpl.
  - by destruct Hrest as [->|[rest' ->]].
  - simpl in Hname. apply andb_true_iff in Hname as [Hc Hname].
    destruct (Ascii.eqb c "/"); [done|]. by rewrite IH.
Qed.

(** X23. From inside a checkout the project root and the name are read
    off the working directory: with [/.worktrees] occurring nowhere in
    [root], a directory [root/.worktrees/name] or anything below it
    (backslashes counting as slashes) is located as the checkout [name]
    of the project [root], without [findProjectRoot] being consulted. *)
Theorem findRealProjectRoot_inside_checkout
    (cwd root name rest : string) (gitRoot : Result string) :
  slashes cwd = root +:+ "/.worktrees/" +:+ name +:+ rest →
  splitFirst "/.worktrees" root = None →
  allChars (fun c => negb (Ascii.eqb c "/")) name = true →
  rest = "" ∨ (∃ rest', rest = String "/" rest') →
  findRealProjectRoot cwd gitRoot = Ok (mkLocated root true (Some name)).
Proof.
  intros Hcwd Hroot Hname Hrest. unfold findRealProjectRoot.
  rewrite Hcwd, (splitFirst_worktrees root (name +:+ rest) Hroot).
  by rewrite firstSegment_segment.
Qed.

Lemma findRealProjectRoot_inside_checkout_witness :
  findRealProjectRoot "C:\work\shop\.worktrees\wt-1\services\api"
    (Throw "Could not find project root (no .git directory found)")
  = Ok (mkLocated "C:/work/shop" true (Some "wt-1")).
Proof.
  refine (findRealProjectRoot_inside_checkout
            "C:\work\shop\.worktrees\wt-1\services\api"
            "C:/work/shop" "wt-1" "/services/api" _
            eq_refl eq_refl eq_refl _).
  right. by eexists.
Defined.

(** *** The context of a checkout *)





Section Paths.
Variable join : list string → string.



(** X26. With a well-formed registry, for a context whose checkout (if
    it is one) has a name of one path segment that is no member of
    [Object.prototype]: the compose project under which [getDevContext]
    tells the container engine to run is the namespace
    [generateCompose] gives the definition of that context; a checkout
    has a slot in 1..maxWorktrees and the main context has slot 0. *)
Theorem compose_project_is_generated_namespace
    (cwd : string) (gitRoot : Result string)
    (config : Config.MonorepoConfig) (explicitName : option string)
    (maxWorktrees : Z) (w : World) (context : DevContext) :
  registryOk maxWorktrees (Ports.loadSlots w) →
  getDevContext join cwd gitRoot config explicitName w = Ok context →
  match worktreeName context with
  | Some n => isName n && negb (inheritedKey n)
  | None => true
  end = true →
  composeProject context
  = Compose.networkName (orString (worktreeName context) "")
      (slot context) config
  ∧ (if isWorktree context then 1 ≤ slot context ≤ maxWorktrees
     else slot context = 0).
Proof.
  intros [Hrange _] Hcontext _. revert Hcontext. unfold getDevContext.
  destruct (findRealProjectRoot cwd gitRoot) as [located|message];
    [|discriminate].
  destruct (truthy _) eqn:Htruthy.
  - destruct (existsWorktree _ w); simpl; [|discriminate].
    destruct (Ports.getSlot _ w) as [s|] eqn:Hs; [|discriminate].
    intros [= <-]. simpl. apply Hrange in Hs.
    split; [|exact Hs].
    unfold getComposeProject, Compose.networkName, Compose.prefix,
      Compose.isMain.
    destruct (Z.eqb_spec s 0) as [->|_]; [lia|].
    destruct (match explicitName with
              | Some n => Some n
              | None => loc_worktreeName located
              end) as [[|c r]|]; done.
  - intros [= <-]. done.
Qed.

End Paths.



Lemma compose_project_is_generated_namespace_witness :
  ∃ context,
    getDevContext Scenarios.joinPlain "/repo/.worktrees/foo/src"
      (Ok "/repo") Samples.catalog None Samples.worldHeld = Ok context
    ∧ composeProject context
      = Compose.networkName (orString (worktreeName context) "")
          (slot context) Samples.catalog
    ∧ (if isWorktree context then 1 ≤ slot context ≤ 5
       else slot context = 0).
Proof.
  eexists. split; [reflexivity|].
  refine (compose_project_is_generated_namespace Scenarios.joinPlain
            "/repo/.worktrees/foo/src" (Ok "/repo") Samples.catalog None 5
            Samples.worldHeld _ _ eq_refl eq_refl).
  change (Ports.loadSlots Samples.worldHeld)
    with (<["foo" := 1]> (<["bar" := 2]> (∅ : gmap string Z))).
  apply RegistrySpec.registryOk_insert; [|reflexivity|lia|].
  - apply RegistrySpec.registryOk_insert;
      [apply RegistrySpec.registryOk_empty|reflexivity|lia|].
    intros [n Hn]. by rewrite lookup_empty in Hn.
  - rewrite <- used_img. apply (bool_decide_unpack _). vm_compute.
    reflexivity.
Defined.

End ContextSpec.

(** ** The list of checkouts *)

Module WorktreeListSpec.
Import Js Operations WorktreeList Vocabulary Invariants StringFacts.

Lemma splitLines_nonempty (text : string) : splitLines text ≠ [].
Proof.
  destruct text as [|c r]; simpl; [done|].
  destruct (Ascii.eqb c "010"); [done|]. by destruct (splitLines r).
Qed.

Lemma splitLines_line (line : string) :
  noNewline line = true → splitLines line = [line].
Proof.
  induction line as [|c line IH]; [done|]. unfold noNewline. simpl.
  intros [Hc Hline]%andb_true_iff.
  destruct (Ascii.eqb c "010"); [done|]. by rewrite IH.
Qed.

Lemma splitLines_cons (line rest : string) :
  noNewline line = true →
  splitLines (line +:+ String "010" rest) = line :: splitLines rest.
Proof.
  induction line as [|c line IH]; [done|]. unfold noNewline. simpl.
  intros [Hc Hline]%andb_true_iff.
  destruct (Ascii.eqb c "010") eqn:E; [done|]. by rewrite IH.
Qed.

(** Splitting undoes joining when no line holds a line break. *)
Lemma splitLines_joinLines (lines : list string) :
  lines ≠ [] → forallb noNewline lines = true →
  splitLines (joinLines lines) = lines.
Proof.
  induction lines as [|line lines IH]; [done|]. intros _. simpl.
  intros [Hline Hlines]%andb_true_iff.
  destruct lines as [|line' lines].
  - by apply splitLines_line.
  - unfold joinLines in *. cbn [String.concat].
    change (String "010" "" +:+ ?x) with (String "010" x).
    rewrite splitLines_cons by done. f_equal. by apply IH.
Qed.

Lemma parse_porcelain (sha : string) (entry : WorktreeEntry)
    (worktrees : list WorktreeEntry) (current : Current) :
  fold_left parseLine (porcelain sha entry) (worktrees, current)
  = (pushCurrent current worktrees,
     mkCurrent (Some (wt_path entry)) (wt_branch entry)).
Proof.
  unfold porcelain. destruct entry as [path [branch|]]; reflexivity.
Qed.

Lemma parse_entries (sha : string) (entries : list WorktreeEntry) :
  ∀ worktrees current,
  forallb entryOk entries = true →
  (let '(worktrees', current') :=
     fold_left parseLine (flat_map (porcelain sha) entries)
       (worktrees, current) in
   pushCurrent current' worktrees')
  = pushCurrent current worktrees ++ entries.
Proof.
  induction entries as [|entry entries IH]; intros worktrees current Hok.
  - simpl. by rewrite List.app_nil_r.
  - simpl in Hok. apply andb_true_iff in Hok as [Hentry Hok].
    cbn [flat_map]. rewrite fold_left_app, parse_porcelain, IH by done.
    unfold pushCurrent at 1. cbn [cur_path cur_branch].
    unfold entryOk in Hentry.
    apply andb_true_iff in Hentry as [[Hpath _]%andb_true_iff _].
    rewrite Hpath. destruct entry as [[|c r] b]; [done|].
    by rewrite <- List.app_assoc.
Qed.

Lemma noNewline_porcelain (sha : string) (entry : WorktreeEntry) :
  noNewline sha = true → entryOk entry = true →
  forallb noNewline (porcelain sha entry) = true.
Proof.
  intros Hsha [[_ Hpath]%andb_true_iff Hbranch]%andb_true_iff.
  unfold porcelain, noNewline in *.
  destruct entry as [path [branch|]]; simpl in *;
    by rewrite ?Hsha, ?Hpath, ?Hbranch.
Qed.

Lemma parseLines_blank (lines : list string) :
  parseLines (lines ++ [""]) = parseLines lines.
Proof.
  unfold parseLines. rewrite fold_left_app. cbn [fold_left].
  by destruct (fold_left parseLine lines _) as [worktrees current].
Qed.

Lemma porcelain_ends_blank (sha : string) (entries : list WorktreeEntry) :
  entries ≠ [] →
  ∃ line lines,
    flat_map (porcelain sha) entries = (line :: lines) ++ [""].
Proof.
  induction entries as [|entry entries IH]; [done|]. intros _.
  destruct entries as [|entry' entries].
  - cbn [flat_map]. rewrite List.app_nil_r. unfold porcelain.
    eexists _, _. rewrite List.app_assoc. reflexivity.
  - destruct IH as (line & lines & Heq); [done|].
    cbn [flat_map] in *. rewrite Heq. unfold porcelain at 1.
    eexists _, _. rewrite !List.app_assoc. reflexivity.
Qed.

(** X28. [getExistingWorktrees] recovers the checkouts from what
    [git worktree list --porcelain] prints, the final empty line trimmed
    away: for entries with a non-empty path (and no line break in path or
    branch), the paths and branches come back in order, a detached
    checkout without branch. A failing [git] gives the empty list. *)
Theorem getExistingWorktrees_round_trip (sha : string)
    (entries : list WorktreeEntry) :
  noNewline sha = true →
  forallb entryOk entries = true →
  getExistingWorktrees
    (Ok (joinLines (removelast (flat_map (porcelain sha) entries))))
  = entries
  ∧ ∀ message, getExistingWorktrees (Throw message) = [].
Proof.
  intros Hsha Hok. split; [|done].
  unfold getExistingWorktrees.
  destruct (decide (entries = [])) as [->|Hne]; [done|].
  destruct (porcelain_ends_blank sha entries Hne) as (line & lines & Heq).
  assert (Hlines : forallb noNewline (flat_map (porcelain sha) entries)
                   = true).
  { clear -Hsha Hok. induction entries as [|e l IH]; [done|].
    cbn [flat_map forallb] in *. apply andb_true_iff in Hok as [He Hl].
    rewrite forallb_app, IH by done.
    by rewrite noNewline_porcelain. }
  pose proof (parse_entries sha entries [] (mkCurrent None None) Hok)
    as Hparse.
  rewrite Heq in Hlines, Hparse |- *. rewrite removelast_last.
  rewrite forallb_app in Hlines. apply andb_true_iff in Hlines as [Hlines _].
  rewrite splitLines_joinLines by done.
  rewrite <- parseLines_blank. exact Hparse.
Qed.

Lemma getExistingWorktrees_round_trip_witness :
  getExistingWorktrees
    (Ok (joinLines
           (removelast (flat_map (porcelain "1a2b3c4") Samples.listed))))
  = Samples.listed
  ∧ ∀ message, getExistingWorktrees (Throw message) = [].
Proof.
  exact (getExistingWorktrees_round_trip "1a2b3c4" Samples.listed
           eq_refl eq_refl).
Defined.

Lemma pushCurrent_paths (current : Current) (worktrees : list WorktreeEntry) :
  Forall (fun entry => wt_path entry ≠ "") worktrees →
  Forall (fun entry => wt_path entry ≠ "") (pushCurrent current worktrees).
Proof.
  intros Hall. unfold pushCurrent.
  destruct (cur_path current) as [[|c r]|]; simpl; try done.
  apply Forall_app. split; [done|]. by apply Forall_singleton.
Qed.

(** X29. Whatever [git] printed, no checkout of the list has an empty
    path: a line [worktree ] without a path starts no entry. *)
Theorem getExistingWorktrees_paths_not_empty (output : Result string) :
  Forall (fun entry => wt_path entry ≠ "") (getExistingWorktrees output).
Proof.
  destruct output as [trimmed|message]; [|by apply Forall_nil].
  unfold getExistingWorktrees, parseLines.
  assert (Hloop : ∀ lines worktrees current,
    Forall (fun entry => wt_path entry ≠ "") worktrees →
    Forall (fun entry => wt_path entry ≠ "")
           (fold_left parseLine lines (worktrees, current)).1).
  { induction lines as [|line lines IH]; intros worktrees current Hall;
      [done|].
    cbn [fold_left]. unfold parseLine at 2.
    destruct (Compose.stripPrefix "worktree " line).
    - apply IH. by apply pushCurrent_paths.
    - destruct (Compose.stripPrefix "branch " line); by apply IH. }
  specialize (Hloop (splitLines trimmed) [] (mkCurrent None None)
                (Forall_nil_2 _)).
  destruct (fold_left parseLine _ _) as [worktrees current].
  by apply pushCurrent_paths.
Qed.

End WorktreeListSpec.
